(** * Kiddo event pipeline: queue, orchestrator and extractor

    A shallow embedding of [src/queue/queue.py], [src/orchestrator.py],
    [src/models/event.py] and [src/processing/extractor.py], with the
    properties of the pipeline proved over it. *)

From Stdlib Require Import ZArith Floats.SpecFloat.
From stdpp Require Import gmap strings list fin_maps.

Set Warnings "-register-all".
Local Open Scope string_scope.
Local Open Scope list_scope.

(** ** Python values and exceptions *)

(** The exceptions the modelled code raises or catches.  All of them are
    subclasses of Python's [Exception], so every [except Exception] clause
    catches each of them. *)
Inductive pyexn : Type :=
  | ValueError (msg : string)
  | TypeError (msg : string)
  | OverflowError (msg : string)
  | RuntimeError (msg : string)
  | ConnectionError (msg : string).

(** Outcome of a call that may raise. *)
Inductive result (A : Type) : Type :=
  | Ok (a : A)
  | Raise (e : pyexn).
Arguments Ok {A} a.
Arguments Raise {A} e.

(** A [datetime.datetime].  [instant] is the position of the value on its
    time line in microseconds (the UTC time line for an aware value, the
    wall clock for a naive one); [aware] tells whether it carries a UTC
    offset.  Python orders two values of the same kind by that position
    and refuses to order a naive value against an aware one. *)
Record datetime : Type := mkDatetime {
  instant : Z;
  aware : bool
}.

(** The values a [Dict[str, Any]] of this program holds: what [json]
    produces, plus [datetime] objects. *)
Inductive pyval : Type :=
  | PNone
  | PBool (b : bool)
  | PInt (z : Z)
  | PFloat (f : spec_float)
  | PStr (s : string)
  | PList (l : list pyval)
  | PDict (d : gmap string pyval)
  | PDatetime (d : datetime).

(** Truth value of an object, as [not x] and [if x:] test it. *)
Definition py_truthy (v : pyval) : bool :=
  match v with
  | PNone => false
  | PBool b => b
  | PInt z => negb (z =? 0)%Z
  | PFloat (S754_zero _) => false
  | PFloat _ => true
  | PStr s => negb (String.eqb s "")
  | PList l => match l with [] => false | _ => true end
  | PDict d => negb (bool_decide (d = ∅))
  | PDatetime _ => true
  end.

(** [d.get(key)] and [d.get(key, default)]. *)
Definition dict_get (d : gmap string pyval) (key : string) : pyval :=
  default PNone (d !! key).
Definition dict_get_default (d : gmap string pyval) (key : string)
    (dflt : pyval) : pyval :=
  default dflt (d !! key).

(** [x or ""] for an optional string. *)
Definition or_empty (x : option string) : string :=
  match x with
  | Some s => if String.eqb s "" then "" else s
  | None => ""
  end.

(** The two conversions of the interpreter applied to text that the
    program relies on: [int(s)] and [datetime.fromisoformat(s)], each
    giving [None] where Python raises [ValueError]. *)
Record PyBuiltins : Type := mkPyBuiltins {
  int_of_str : string -> option Z;
  fromisoformat : string -> option datetime
}.

(** [int(f)] for a float: truncation towards zero. *)
Definition float_trunc (f : spec_float) : result Z :=
  match f with
  | S754_zero _ => Ok 0%Z
  | S754_infinity _ =>
      Raise (OverflowError "cannot convert float infinity to integer")
  | S754_nan => Raise (ValueError "cannot convert float NaN to integer")
  | S754_finite sign m e =>
      let mag := if (0 <=? e)%Z then (Z.pos m * 2 ^ e)%Z
                 else (Z.pos m / 2 ^ (- e))%Z in
      Ok (if sign then (- mag)%Z else mag)
  end.

(** [int(v)]. *)
Definition py_int (py : PyBuiltins) (v : pyval) : result Z :=
  match v with
  | PBool b => Ok (if b then 1 else 0)%Z
  | PInt z => Ok z
  | PFloat f => float_trunc f
  | PStr s =>
      match int_of_str py s with
      | Some z => Ok z
      | None => Raise (ValueError "invalid literal for int() with base 10")
      end
  | PNone | PList _ | PDict _ | PDatetime _ =>
      Raise (TypeError "int() argument must be a string or a real number")
  end.

(** ** [src/models/event.py] *)

Record RawEvent : Type := mkRawEvent {
  source_id : string;
  timestamp : datetime;
  raw_payload : gmap string pyval;
  source_metadata : gmap string pyval;
  event_id : option string
}.

Module StructuredEvent.

Record t : Type := mk {
  event_id : string;
  event_type : pyval;
  title : pyval;
  description : pyval;
  due_date : option datetime;
  start_time : option datetime;
  end_time : option datetime;
  participants : pyval;
  location : pyval;
  priority : pyval;
  source_reference : pyval;
  metadata : pyval;
  alert_before_minutes : option Z;
  is_recurring : pyval;
  recurrence_pattern : pyval
}.

(** The dataclass constructor followed by [__post_init__]. *)
Definition new (event_id : string) (event_type title description : pyval)
    (due_date start_time end_time : option datetime)
    (participants location priority source_reference metadata : pyval)
    (alert_before_minutes : option Z)
    (is_recurring recurrence_pattern : pyval) : t :=
  {| event_id := event_id;
     event_type := event_type;
     title := title;
     description := description;
     due_date := due_date;
     start_time := start_time;
     end_time := end_time;
     participants :=
       match participants with PNone => PList [] | p => p end;
     location := location;
     priority := priority;
     source_reference := source_reference;
     metadata := match metadata with PNone => PDict ∅ | m => m end;
     alert_before_minutes :=
       match alert_before_minutes with
       | None => Some 15%Z
       | Some a => Some a
       end;
     is_recurring := is_recurring;
     recurrence_pattern := recurrence_pattern |}.

End StructuredEvent.

(** ** [src/queue/queue.py]: InMemoryEventQueue *)

Module Queue.

(** [self.queue] is a Python list used as a backlog; [self.processing] is
    a dict keyed by [event.event_id], which is [None] or a string. *)
Record t : Type := mk {
  queue : list RawEvent;
  processing : gmap (option string) RawEvent
}.

(** [__init__] *)
Definition init : t := {| queue := []; processing := ∅ |}.

(** [publish]: append to the backlog, return [True]. *)
Definition publish (event : RawEvent) (q : t) : bool * t :=
  (true, {| queue := queue q ++ [event]; processing := processing q |}).

(** One pull of the [consume] generator: when the backlog is non-empty the
    head is popped, stored in [processing] under its [event_id] and
    yielded; otherwise the generator finishes ([break]). *)
Definition consume_next (q : t) : option (RawEvent * t) :=
  match queue q with
  | event :: rest =>
      Some (event,
            {| queue := rest;
               processing := <[event_id event := event]> (processing q) |})
  | [] => None
  end.

(** Iterating [consume] to exhaustion with nothing interleaved. The fuel
    bounds the number of pulls. *)
Fixpoint consume_all (fuel : nat) (q : t) : list RawEvent * t :=
  match fuel with
  | O => ([], q)
  | S n =>
      match consume_next q with
      | Some (event, q') =>
          let '(evs, q'') := consume_all n q' in (event :: evs, q'')
      | None => ([], q)
      end
  end.

(** [ack] *)
Definition ack (eid : option string) (q : t) : bool * t :=
  match processing q !! eid with
  | Some _ => (true, {| queue := queue q; processing := delete eid (processing q) |})
  | None => (true, q)
  end.

(** [nack] *)
Definition nack (eid : option string) (requeue : bool) (q : t) : bool * t :=
  match processing q !! eid with
  | Some event =>
      (true,
       {| queue := if requeue then queue q ++ [event] else queue q;
          processing := delete eid (processing q) |})
  | None => (true, q)
  end.

(** The methods a client can call on the queue, and a run of a sequence
    of such calls; [OpConsume] is one pull of a [consume] generator that
    has not finished yet (a pull of a finished generator yields nothing
    and changes nothing, like no call at all).  A run collects the events
    the pulls yield, in order. *)
Inductive op : Type :=
  | OpPublish (event : RawEvent)
  | OpConsume
  | OpAck (eid : option string)
  | OpNack (eid : option string) (requeue : bool).

Definition step (o : op) (q : t) : list RawEvent * t :=
  match o with
  | OpPublish event => ([], (publish event q).2)
  | OpConsume =>
      match consume_next q with
      | Some (event, q') => ([event], q')
      | None => ([], q)
      end
  | OpAck eid => ([], (ack eid q).2)
  | OpNack eid requeue => ([], (nack eid requeue q).2)
  end.

Fixpoint run (ops : list op) (q : t) : list RawEvent * t :=
  match ops with
  | [] => ([], q)
  | o :: ops' =>
      let '(ys, q') := step o q in
      let '(zs, q'') := run ops' q' in
      (ys ++ zs, q'')
  end.

(** Every in-flight entry is stored under the id of its event: what
    [consume] establishes and no method breaks. *)
Definition keyed (q : t) : Prop :=
  ∀ k ev, processing q !! k = Some ev → event_id ev = k.

(** No event with id [i] is anywhere in the queue object. *)
Definition absent (i : option string) (q : t) : Prop :=
  (∀ ev, ev ∈ queue q → event_id ev ≠ i) ∧
  (∀ k ev, processing q !! k = Some ev → event_id ev ≠ i).

End Queue.

(** ** [src/processing/extractor.py]: DataExtractor *)

Module DataExtractor.

(** [a >= b] on two [datetime] objects. *)
Definition datetime_ge (a b : datetime) : result bool :=
  if Bool.eqb (aware a) (aware b) then Ok (instant b <=? instant a)%Z
  else Raise (TypeError "can't compare offset-naive and offset-aware datetimes").

(** [_parse_datetime] *)
Definition _parse_datetime (py : PyBuiltins) (value : pyval) : option datetime :=
  match value with
  | PNone => None
  | PDatetime d => Some d
  | PStr s => fromisoformat py s
  | _ => None
  end.

(** [_validate] *)
Definition _validate (event : StructuredEvent.t) : result unit :=
  if negb (py_truthy (StructuredEvent.title event)) then
    Raise (ValueError "Event title is required")
  else
    match StructuredEvent.start_time event, StructuredEvent.end_time event with
    | Some st, Some en =>
        match datetime_ge st en with
        | Ok true => Raise (ValueError "Start time must be before end time")
        | Ok false => Ok ()
        | Raise e => Raise e
        end
    | _, _ => Ok ()
    end.

(** The [alert_before_minutes] block of [extract]: [int] is tried on any
    value other than [None]; [ValueError] and [TypeError] are swallowed,
    any other exception leaves [extract]. *)
Definition parse_alert_before (py : PyBuiltins) (alert_before : pyval)
    : result (option Z) :=
  match alert_before with
  | PNone => Ok None
  | v =>
      match py_int py v with
      | Ok z => Ok (Some z)
      | Raise (ValueError _) | Raise (TypeError _) => Ok None
      | Raise e => Raise e
      end
  end.

(** The [metadata] argument of the constructor call: a dict display with
    two fixed keys followed by [**normalized_event.get("metadata", {})]. *)
Definition build_metadata (now : string) (normalized_event : gmap string pyval)
    : result pyval :=
  match dict_get_default normalized_event "metadata" (PDict ∅) with
  | PDict m =>
      Ok (PDict (m ∪ <["extraction_timestamp" := PStr now]>
                        (<["llm_extracted" := PBool true]> ∅)))
  | _ => Raise (TypeError "argument after ** must be a mapping")
  end.

(** [extract].  [uuid] is the text of the [uuid.uuid4()] drawn by the call
    and [now] that of [datetime.now().isoformat()]. *)
Definition extract (py : PyBuiltins) (uuid now : string)
    (normalized_event llm_result : gmap string pyval)
    : result StructuredEvent.t :=
  let event_id := uuid in
  let due_date := _parse_datetime py (dict_get llm_result "due_date") in
  let start_time := _parse_datetime py (dict_get llm_result "start_time") in
  let end_time := _parse_datetime py (dict_get llm_result "end_time") in
  match parse_alert_before py (dict_get llm_result "alert_before_minutes") with
  | Raise e => Raise e
  | Ok alert_before =>
      match build_metadata now normalized_event with
      | Raise e => Raise e
      | Ok metadata =>
          let structured :=
            StructuredEvent.new
              event_id
              (dict_get_default llm_result "event_type" (PStr "unknown"))
              (dict_get_default llm_result "title" (PStr "Untitled Event"))
              (dict_get llm_result "description")
              due_date start_time end_time
              (dict_get_default llm_result "participants" (PList []))
              (dict_get llm_result "location")
              (dict_get llm_result "priority")
              (dict_get normalized_event "source_id")
              metadata
              alert_before
              (dict_get_default llm_result "is_recurring" (PBool false))
              (dict_get llm_result "recurrence_pattern") in
          match _validate structured with
          | Raise e => Raise e
          | Ok _ => Ok structured
          end
      end
  end.

(** The data-model invariant of a structured event: a title that is not
    empty, and a start that lies strictly before the end when both are
    there. *)
Definition well_formed (event : StructuredEvent.t) : Prop :=
  py_truthy (StructuredEvent.title event) = true ∧
  (∀ s, StructuredEvent.title event = PStr s → s ≠ "") ∧
  ∀ st en,
    StructuredEvent.start_time event = Some st →
    StructuredEvent.end_time event = Some en →
    aware st = aware en ∧ (instant st < instant en)%Z.

(** A value that is an integer, as opposed to any other kind of value. *)
Definition is_integer (v : pyval) : bool :=
  match v with
  | PInt _ => true
  | _ => false
  end.

End DataExtractor.

(** ** [src/orchestrator.py]: SystemOrchestrator *)

Module Orchestrator.

Section WithWorld.

(** [W] is the state of everything outside the orchestrator and its
    queue: the mail source, the extraction service, the calendars. *)
Context {W : Type}.

(** [src/ingestion/connector.py]: the [SourceConnector] interface, as far
    as the orchestrator's start-up and processing loop call it. *)
Record SourceConnector : Type := mkConnector {
  conn_source_id : string;
  connect : W -> result unit * W;
  disconnect : W -> result unit * W;
  mark_as_processed : RawEvent -> W -> result bool * W
}.

(** [src/calendar/provider.py]: the one method the orchestrator calls;
    its return value is discarded there. *)
Record CalendarProvider : Type := mkProvider {
  create_event : StructuredEvent.t -> string -> W -> result unit * W
}.

(** The fields [__init__] stores.  [calendar_providers] is a dict that is
    only iterated, in insertion order; [process_event] is the method of
    [self.processing_engine]. *)
Record t : Type := mk {
  connectors : list SourceConnector;
  process_event : RawEvent -> W -> result StructuredEvent.t * W;
  calendar_providers : list (string * CalendarProvider)
}.

(** [{connector.source_id: connector for connector in connectors}] *)
Definition connector_map (o : t) : gmap string SourceConnector :=
  foldl (fun m c => <[conn_source_id c := c]> m) ∅ (connectors o).

(** The calls the orchestrator makes, recorded in the order it makes
    them. *)
Inductive call : Type :=
  | CallConnect (source : string)
  | CallDisconnect (source : string)
  | CallProcessEvent (raw : RawEvent)
  | CallCreateEvent (provider : string) (event : StructuredEvent.t)
      (calendar_id : string)
  | CallMarkAsProcessed (source : string) (raw : RawEvent)
  | CallAck (eid : string)
  | CallNack (eid : string) (requeue : bool)
  | CallPrint (msg : string) (e : pyexn)
  | CallSleep (seconds : nat).

(** Calls of the sink fan-out: a calendar call, or the report of one
    that failed. *)
Definition is_sink_call (c : call) : bool :=
  match c with
  | CallCreateEvent _ _ _ => true
  | CallPrint _ _ => true
  | _ => false
  end.

Definition is_mark_call (c : call) : bool :=
  match c with
  | CallMarkAsProcessed _ _ => true
  | _ => false
  end.

Definition is_ack_call (c : call) : bool :=
  match c with
  | CallAck _ => true
  | _ => false
  end.

(** How many calls of a kind a trace holds. *)
Definition count_calls (kind : call -> bool) (calls : list call) : nat :=
  length (List.filter kind calls).

(** The coroutines [start] hands to [asyncio.gather]. *)
Inductive task : Type :=
  | IngestionLoop (source : string)
  | ProcessingLoop.

(** The mutable part: [self.running], the queue object, the outside
    world, and the record of calls made so far. *)
Record state : Type := mkState {
  running : bool;
  event_queue : Queue.t;
  world : W;
  trace : list call
}.

(** Computations over [state] that may raise.  A raise keeps the state
    reached so far: nothing is rolled back. *)
Definition M (A : Type) : Type := state -> result A * state.

Definition ret {A} (a : A) : M A := fun s => (Ok a, s).

Definition bind {A B} (m : M A) (k : A -> M B) : M B :=
  fun s =>
    match m s with
    | (Ok a, s') => k a s'
    | (Raise e, s') => (Raise e, s')
    end.

(** [try: m  except Exception as e: h e] *)
Definition try_except {A} (m : M A) (h : pyexn -> M A) : M A :=
  fun s =>
    match m s with
    | (Ok a, s') => (Ok a, s')
    | (Raise e, s') => h e s'
    end.

Notation "x <- m ;; k" := (bind m (fun x => k))
  (at level 100, m at next level, right associativity).
Notation "m ;;; k" := (bind m (fun _ => k))
  (at level 100, right associativity).

Definition log (c : call) : M unit :=
  fun s => (Ok (), {| running := running s; event_queue := event_queue s;
                      world := world s; trace := trace s ++ [c] |}).

Definition set_running (b : bool) : M unit :=
  fun s => (Ok (), {| running := b; event_queue := event_queue s;
                      world := world s; trace := trace s |}).

(** A call into the outside world. *)
Definition extern {A} (f : W -> result A * W) : M A :=
  fun s =>
    let '(r, w) := f (world s) in
    (r, {| running := running s; event_queue := event_queue s;
           world := w; trace := trace s |}).

(** A call of a queue method. *)
Definition on_queue {A} (f : Queue.t -> A * Queue.t) : M A :=
  fun s =>
    let '(a, q) := f (event_queue s) in
    (Ok a, {| running := running s; event_queue := q;
              world := world s; trace := trace s |}).

(** [for x in xs: body x] *)
Fixpoint for_each {A} (xs : list A) (body : A -> M unit) : M unit :=
  match xs with
  | [] => ret ()
  | x :: rest => body x ;;; for_each rest body
  end.

(** [list comprehension] over a pure function. *)
Definition ingestion_tasks (o : t) : list task :=
  map (fun c => IngestionLoop (conn_source_id c)) (connectors o).

(** The first loop of [start]: [await connector.connect()] for each
    connector in turn, with nothing around it to catch a raise. *)
Definition connect_each (cs : list SourceConnector) : M unit :=
  for_each cs (fun connector =>
    log (CallConnect (conn_source_id connector)) ;;;
    extern (connect connector)).

(** [start], up to the call of [asyncio.gather]: the result is the list of
    coroutines passed to it. *)
Definition start (o : t) : M (list task) :=
  set_running true ;;;
  connect_each (connectors o) ;;;
  let ingestion_tasks := ingestion_tasks o in
  let processing_task := ProcessingLoop in
  ret (ingestion_tasks ++ [processing_task]).

(** [stop] *)
Definition stop (o : t) : M unit :=
  set_running false ;;;
  for_each (connectors o) (fun connector =>
    log (CallDisconnect (conn_source_id connector)) ;;;
    extern (disconnect connector)).

(** [_integrate_calendar] *)
Definition _integrate_calendar (o : t) (event : StructuredEvent.t) : M unit :=
  for_each (calendar_providers o) (fun '(provider_name, provider) =>
    try_except
      (let calendar_id := "primary" in
       log (CallCreateEvent provider_name event calendar_id) ;;;
       extern (create_event provider event calendar_id))
      (fun e => log (CallPrint "Error integrating with " e))).

(** [_send_notifications] *)
Definition _send_notifications (o : t) (event : StructuredEvent.t) : M unit :=
  ret ().

(** The body of the [async for] of [_processing_loop], for one consumed
    event: first the [try] block, then the [except Exception] handler.
    [if connector:] holds for every connector the registry returns, a
    connector being an object without a truth method of its own. *)
Definition process_one_try (o : t) (raw_event : RawEvent) : M unit :=
  log (CallProcessEvent raw_event) ;;;
  structured_event <- extern (process_event o raw_event) ;;
  _integrate_calendar o structured_event ;;;
  _send_notifications o structured_event ;;;
  match connector_map o !! source_id raw_event with
  | Some connector =>
      log (CallMarkAsProcessed (conn_source_id connector) raw_event) ;;;
      extern (mark_as_processed connector raw_event) ;;; ret ()
  | None => ret ()
  end ;;;
  log (CallAck (or_empty (event_id raw_event))) ;;;
  on_queue (Queue.ack (Some (or_empty (event_id raw_event)))) ;;; ret ().

Definition process_one_except (o : t) (raw_event : RawEvent) (e : pyexn)
    : M unit :=
  log (CallPrint "Error processing event: " e) ;;;
  log (CallNack (or_empty (event_id raw_event)) true) ;;;
  on_queue (Queue.nack (Some (or_empty (event_id raw_event))) true) ;;;
  ret ().

Definition process_one (o : t) (raw_event : RawEvent) : M unit :=
  try_except (process_one_try o raw_event) (process_one_except o raw_event).

(** [async for raw_event in self.event_queue.consume(): ...].  Each round
    pulls one event from the generator and runs the body on it; the loop
    ends when the generator finishes.  The result tells whether it ended
    that way ([true]) or the fuel ran out first ([false]). *)
Fixpoint consume_loop (o : t) (fuel : nat) : M bool :=
  match fuel with
  | O => ret false
  | S n =>
      fun s =>
        match Queue.consume_next (event_queue s) with
        | None => (Ok true, s)
        | Some (raw_event, q) =>
            (process_one o raw_event ;;; consume_loop o n)
              {| running := running s; event_queue := q;
                 world := world s; trace := trace s |}
        end
  end.

(** [_processing_loop]: [rounds] bounds the iterations of the [while],
    [fuel] the pulls of each [async for]. *)
Fixpoint _processing_loop (o : t) (rounds fuel : nat) : M unit :=
  match rounds with
  | O => ret ()
  | S r =>
      fun s =>
        if running s then
          (try_except
             (consume_loop o fuel ;;; ret ())
             (fun e =>
                log (CallPrint "Error in processing loop: " e) ;;;
                log (CallSleep 1)) ;;;
           _processing_loop o r fuel) s
        else (Ok (), s)
  end.

End WithWorld.

Arguments SourceConnector : clear implicits.
Arguments CalendarProvider : clear implicits.
Arguments t : clear implicits.
Arguments state : clear implicits.
Arguments M : clear implicits.

End Orchestrator.

(** * Concrete pipelines used in the examples *)

Module Fixtures.
Import Orchestrator.

(** A finite excerpt of the graphs of [int] and [fromisoformat] on text:
    the listed strings convert to the listed values, any other string is
    taken to be rejected.  The examples below only use listed strings and
    strings neither function accepts. *)
Definition excerpt {A} (table : list (string * A)) (s : string) : option A :=
  snd <$> List.find (fun p => String.eqb (fst p) s) table.

Definition py : PyBuiltins :=
  {| int_of_str := excerpt [("30", 30%Z); ("5", 5%Z)];
     fromisoformat :=
       excerpt [("2024-05-01T10:00:00", mkDatetime 1714557600000000 false);
                ("2024-05-01T11:00:00", mkDatetime 1714561200000000 false)] |}.

Definition t0 : datetime := mkDatetime 1714550000000000 false.

Definition ev (source : string) (eid : option string) (body : string)
    : RawEvent :=
  {| source_id := source;
     timestamp := t0;
     raw_payload := {[ "body" := PStr body ]};
     source_metadata := {[ "type" := PStr "gmail" ]};
     event_id := eid |}.

Definition src_1 : RawEvent := ev "mail" (Some "src_1") "Meeting at 10am".
Definition src_2 : RawEvent := ev "mail" (Some "src_2") "???".
Definition anon : RawEvent := ev "mail" None "Meeting at noon".

(** The float [20.5]. *)
Definition f20_5 : spec_float := S754_finite false 41 (-1).

Definition llm_meeting : gmap string pyval :=
  {[ "title" := PStr "Meeting";
     "start_time" := PStr "2024-05-01T10:00:00";
     "end_time" := PStr "2024-05-01T11:00:00" ]}.

Definition llm_alert (v : pyval) : gmap string pyval :=
  <[ "alert_before_minutes" := v ]> llm_meeting.

Definition normalized (raw : RawEvent) : gmap string pyval :=
  {[ "source_id" := PStr (source_id raw);
     "metadata" := PDict (source_metadata raw) ]}.

(** The outside world of the examples is a counter of the calls made
    into it. *)
Definition tick {A} (r : result A) (w : nat) : result A * nat := (r, S w).

Definition mail : SourceConnector nat :=
  {| conn_source_id := "mail";
     connect := tick (Ok ());
     disconnect := tick (Ok ());
     mark_as_processed := fun _ => tick (Ok true) |}.

Definition broken : SourceConnector nat :=
  {| conn_source_id := "broken";
     connect := tick (Raise (ConnectionError "Failed to connect to Gmail"));
     disconnect := tick (Ok ());
     mark_as_processed := fun _ => tick (Ok true) |}.

Definition calendar_ok : CalendarProvider nat :=
  {| create_event := fun _ _ => tick (Ok ()) |}.

Definition calendar_down : CalendarProvider nat :=
  {| create_event := fun _ _ => tick (Raise (RuntimeError "calendar down")) |}.

(** An engine that fails on ["src_2"] and extracts a meeting from any
    other event. *)
Definition engine (raw : RawEvent) (w : nat) : result StructuredEvent.t * nat :=
  if bool_decide (event_id raw = Some "src_2") then
    tick (Raise (ValueError "Event title is required")) w
  else
    tick (DataExtractor.extract py "uuid-1" "2024-05-01T09:00:00"
            (normalized raw) llm_meeting) w.

Definition orchestrator (cs : list (SourceConnector nat)) : Orchestrator.t nat :=
  {| connectors := cs;
     process_event := engine;
     calendar_providers := [("google", calendar_ok); ("ical", calendar_down)] |}.

Definition state_of (backlog : list RawEvent) : Orchestrator.state nat :=
  {| running := true;
     event_queue := {| Queue.queue := backlog; Queue.processing := ∅ |};
     world := 0;
     trace := [] |}.

(** A queue holding two events, the same queue after one pull, and the
    like for an event without an id. *)
Definition q_two : Queue.t :=
  {| Queue.queue := [src_1; src_2]; Queue.processing := ∅ |}.

Definition q_two_pulled : Queue.t :=
  {| Queue.queue := [src_2];
     Queue.processing := <[Some "src_1" := src_1]> ∅ |}.

Definition q_anon : Queue.t :=
  {| Queue.queue := [anon]; Queue.processing := ∅ |}.

Definition q_anon_pulled : Queue.t :=
  {| Queue.queue := []; Queue.processing := <[None := anon]> ∅ |}.

Definition state_with (q : Queue.t) : Orchestrator.state nat :=
  {| running := true; event_queue := q; world := 0; trace := [] |}.

End Fixtures.

(** * The rest of the pipeline *)

(** ** [src/queue/queue.py]: what a sequence of calls published *)

Module QueueHistory.
Import Queue.

(** The events passed to [publish] in a sequence of calls, in order. *)
Fixpoint published (ops : list op) : list RawEvent :=
  match ops with
  | [] => []
  | OpPublish event :: ops' => event :: published ops'
  | _ :: ops' => published ops'
  end.

(** The in-flight map after pulling the events [evs] one after the
    other: each is stored under its own id, a later one replacing an
    earlier one of the same id. *)
Definition in_flight_after (evs : list RawEvent)
    (pr : gmap (option string) RawEvent) : gmap (option string) RawEvent :=
  foldl (fun m ev => <[event_id ev := ev]> m) pr evs.

End QueueHistory.

(** ** [src/orchestrator.py]: [_ingestion_loop] *)

Module Ingestion.
Import Orchestrator.

Section WithWorld.
Context {W : Type}.

Notation "x <- m ;; k" := (bind m (fun x => k))
  (at level 100, m at next level, right associativity).
Notation "m ;;; k" := (bind m (fun _ => k))
  (at level 100, right associativity).

(** A connector together with its [fetch_events] method.  One call of the
    method builds an async generator; running it to its end gives the
    events it yields, in order, and tells whether it then finished
    ([None]) or raised.  The generator sees the outside world only, not
    the queue. *)
Record FetchingConnector : Type := mkFetching {
  connector : SourceConnector W;
  fetch_events : W -> list RawEvent * option pyexn * W
}.

(** [raise e] *)
Definition raise {A} (e : pyexn) : M W A := fun s => (Raise e, s).

Definition is_nack_call (c : call) : bool :=
  match c with
  | CallNack _ _ => true
  | _ => false
  end.

Definition is_create_call (c : call) : bool :=
  match c with
  | CallCreateEvent _ _ _ => true
  | _ => false
  end.

Definition is_process_call (c : call) : bool :=
  match c with
  | CallProcessEvent _ => true
  | _ => false
  end.

(** [async for event in connector.fetch_events(): await publish(event)]:
    every event the generator yields is published before the generator
    is resumed, so the events yielded ahead of a raise are in the backlog
    when the raise arrives. *)
Definition fetch_and_publish (c : FetchingConnector) : M W unit :=
  fetched <- extern (fun w => let '(evs, exn, w') := fetch_events c w in
                              (Ok (evs, exn), w')) ;;
  for_each (fst fetched) (fun event =>
    on_queue (Queue.publish event) ;;; ret ()) ;;;
  match snd fetched with
  | Some e => raise e
  | None => ret ()
  end.

(** One iteration of the [while self.running] of [_ingestion_loop]. *)
Definition ingestion_round (c : FetchingConnector) : M W unit :=
  try_except
    (fetch_and_publish c)
    (fun e =>
       log (CallPrint
              (String.append "Error in ingestion loop for "
                 (conn_source_id (connector c))) e) ;;;
       log (CallSleep 5)).

(** [_ingestion_loop]; [rounds] bounds the iterations of the [while]. *)
Fixpoint _ingestion_loop (c : FetchingConnector) (rounds : nat) : M W unit :=
  match rounds with
  | O => ret ()
  | S r =>
      fun s =>
        if running s then (ingestion_round c ;;; _ingestion_loop c r) s
        else (Ok (), s)
  end.

End WithWorld.

Arguments FetchingConnector : clear implicits.

End Ingestion.

(** ** [src/processing/normalizer.py]: EventNormalizer *)

Module Normalizer.

(** The text functions of the interpreter the normalizer relies on:
    [d.isoformat()], [str(v)] for a value that is not text already, and
    [s.lower()]. *)
Record PyText : Type := mkPyText {
  isoformat : datetime -> string;
  py_str : pyval -> string;
  lower : string -> string
}.

(** [str(v)]: text is its own [str]. *)
Definition to_str (t : PyText) (v : pyval) : string :=
  match v with
  | PStr s => s
  | _ => py_str t v
  end.

(** [needle in hay] on text.  Strings are kept as UTF-8 bytes, on which
    containment of well-formed text agrees with containment on code
    points. *)
Fixpoint contains (needle hay : string) : bool :=
  String.prefix needle hay ||
  match hay with
  | EmptyString => false
  | String _ hay' => contains needle hay'
  end.

(** [v == s] for a text constant [s]. *)
Definition eq_str (v : pyval) (s : string) : bool :=
  match v with
  | PStr s' => String.eqb s' s
  | _ => false
  end.

(** [v.lower()]: only text has the method; anything else raises
    [AttributeError], given as [None]. *)
Definition lower_of (t : PyText) (v : pyval) : option string :=
  match v with
  | PStr s => Some (lower t s)
  | _ => None
  end.

Definition school_indicators : list string :=
  ["szkola"; "szkoła"; "przedszkole"; "edu.pl";
   "sp"; "gimnazjum"; "liceum"; "nauczyciel";
   "dyrektor"; "sekretariat"].

(** [_is_school_sender] *)
Definition _is_school_sender (from_email : string) : bool :=
  existsb (fun indicator => contains indicator from_email) school_indicators.

Definition content_fields : list string :=
  ["body"; "content"; "text"; "message"; "description"].

(** [_extract_content]; the payload of a [RawEvent] is a dict. *)
Definition _extract_content (t : PyText) (payload : gmap string pyval)
    : string :=
  match List.find (fun field => bool_decide (is_Some (payload !! field)))
          content_fields with
  | Some field => to_str t (dict_get payload field)
  | None => py_str t (PDict payload)
  end.

(** Outcome of [normalize].  The dict stored under ["metadata"] is the
    raw event's own [source_metadata] object, so writing [prompt_task]
    into it changes the raw event as well: the outcome carries the raw
    event as the call leaves it. *)
Inductive outcome : Type :=
  | Normalized (normalized : gmap string pyval) (raw_event : RawEvent)
  | AttributeError (msg : string).

(** [normalized["metadata"]["prompt_task"] = task] *)
Definition set_prompt_task (task : string) (normalized : gmap string pyval)
    (raw_event : RawEvent) : outcome :=
  let metadata := <["prompt_task" := PStr task]> (source_metadata raw_event) in
  Normalized
    (<["metadata" := PDict metadata]> normalized)
    {| source_id := source_id raw_event;
       timestamp := timestamp raw_event;
       raw_payload := raw_payload raw_event;
       source_metadata := metadata;
       event_id := event_id raw_event |}.

(** [normalize] *)
Definition normalize (t : PyText) (raw_event : RawEvent) : outcome :=
  let normalized : gmap string pyval :=
    <["source_id" := PStr (source_id raw_event)]>
    (<["timestamp" := PStr (isoformat t (timestamp raw_event))]>
    (<["raw_content" := PStr (_extract_content t (raw_payload raw_event))]>
    (<["metadata" := PDict (source_metadata raw_event)]> ∅))) in
  if eq_str (dict_get (source_metadata raw_event) "type") "gmail" then
    let payload := raw_payload raw_event in
    let subject := dict_get_default payload "subject" (PStr "") in
    match lower_of t (dict_get_default payload "from" (PStr "")) with
    | None => AttributeError "object has no attribute 'lower'"
    | Some from_email =>
        let normalized := <["subject" := subject]> normalized in
        let normalized := <["from_email" := PStr from_email]> normalized in
        match lower_of t subject with
        | None => AttributeError "object has no attribute 'lower'"
        | Some subject_lower =>
            if contains "dodaj do kalendarza" subject_lower then
              set_prompt_task "extract_mail_to_calendar" normalized raw_event
            else if _is_school_sender from_email then
              set_prompt_task "extract_school_event" normalized raw_event
            else Normalized normalized raw_event
        end
    end
  else Normalized normalized raw_event.

End Normalizer.

(** ** [src/processing/engine.py]: EventProcessingEngine *)

Module Engine.

Section WithWorld.
Context {W : Type}.

(** What the engine is built from: the normalizer's and the extractor's
    view of the interpreter, the LLM service as an outside call
    ([extract_event_details(normalized, event_type_hint, prompt_task)]),
    the draw of a [uuid4] and the reading of the clock. *)
Record t : Type := mk {
  text : Normalizer.PyText;
  builtins : PyBuiltins;
  extract_event_details :
    gmap string pyval -> pyval -> pyval -> W -> result (gmap string pyval) * W;
  uuid4 : W -> string * W;
  now_isoformat : W -> string
}.

(** What a call of the engine ends with. *)
Inductive failure : Type :=
  | NormalizeFailed (msg : string)
  | Raised (e : pyexn).

Inductive attempt (A : Type) : Type :=
  | Returned (a : A)
  | Failed (f : failure).
Arguments Returned {A} a.
Arguments Failed {A} f.

(** [normalized.get("metadata", {}).get("prompt_task")]; the value under
    ["metadata"] is the dict [normalize] put there. *)
Definition prompt_task_of (normalized : gmap string pyval) : pyval :=
  match dict_get_default normalized "metadata" (PDict ∅) with
  | PDict metadata => dict_get metadata "prompt_task"
  | _ => PNone
  end.

(** [process_event].  The result carries the raw event as the call
    leaves it and the outside world after the call. *)
Definition process_event (engine : t) (raw_event : RawEvent) (w : W)
    : attempt StructuredEvent.t * RawEvent * W :=
  match Normalizer.normalize (text engine) raw_event with
  | Normalizer.AttributeError msg => (Failed (NormalizeFailed msg), raw_event, w)
  | Normalizer.Normalized normalized raw_event' =>
      let event_type_hint := PNone in
      let prompt_task := prompt_task_of normalized in
      match extract_event_details engine normalized event_type_hint
              prompt_task w with
      | (Raise e, w1) => (Failed (Raised e), raw_event', w1)
      | (Ok extraction_result, w1) =>
          let '(uuid, w2) := uuid4 engine w1 in
          match DataExtractor.extract (builtins engine) uuid
                  (now_isoformat engine w2) normalized extraction_result with
          | Ok structured => (Returned structured, raw_event', w2)
          | Raise e => (Failed (Raised e), raw_event', w2)
          end
      end
  end.

(** [process_batch]: the events that were processed, in order, beside the
    reports printed for the others (the event id and what was raised). *)
Fixpoint process_batch (engine : t) (raw_events : list RawEvent) (w : W)
    : list StructuredEvent.t * list (option string * failure) * W :=
  match raw_events with
  | [] => ([], [], w)
  | event :: rest =>
      match process_event engine event w with
      | (Returned structured, _, w1) =>
          let '(results, reports, w2) := process_batch engine rest w1 in
          (structured :: results, reports, w2)
      | (Failed f, _, w1) =>
          let '(results, reports, w2) := process_batch engine rest w1 in
          (results, (event_id event, f) :: reports, w2)
      end
  end.

End WithWorld.

Arguments t : clear implicits.
Arguments Returned {A} a.
Arguments Failed {A} f.

End Engine.

(** ** [src/processing/extractor.py]: outcomes *)

Module Outcome.

(** A call returned, as opposed to raised. *)
Definition returns {A} (r : result A) : Prop := ∃ a, r = Ok a.

End Outcome.

(** ** More concrete pipelines for the examples *)

Module MoreFixtures.
Import Orchestrator Ingestion Fixtures.

(** [s.lower()] on ASCII letters; other bytes are kept. *)
Definition ascii_lower (c : Ascii.ascii) : Ascii.ascii :=
  let n := Ascii.nat_of_ascii c in
  if (65 <=? n)%nat && (n <=? 90)%nat then Ascii.ascii_of_nat (n + 32) else c.

Fixpoint lower_ascii (s : string) : string :=
  match s with
  | EmptyString => EmptyString
  | String c s' => String (ascii_lower c) (lower_ascii s')
  end.

(** The text functions on the values the examples use: the one timestamp
    of the example events, payload values that are text, ASCII letters. *)
Definition text : Normalizer.PyText :=
  {| Normalizer.isoformat := fun _ => "2024-05-01T07:53:20";
     Normalizer.py_str := fun _ => "{}";
     Normalizer.lower := lower_ascii |}.

(** A mail that asks for a calendar entry, sent from a school address. *)
Definition invite : RawEvent :=
  {| source_id := "mail";
     timestamp := t0;
     raw_payload :=
       {[ "body" := PStr "Zebranie rodzicow 1 maja o 10:00";
          "subject" := PStr "Dodaj do kalendarza: zebranie";
          "from" := PStr "Sekretariat <biuro@sp5.edu.pl>" ]};
     source_metadata := {[ "type" := PStr "gmail" ]};
     event_id := Some "gmail_1" |}.

(** A second event carrying the id of [src_1]. *)
Definition src_1_again : RawEvent :=
  ev "mail" (Some "src_1") "Meeting moved to 11am".

(** An event of a source no connector has. *)
Definition stray : RawEvent := ev "webhook" (Some "hook_1") "ping".

Definition meeting_event : StructuredEvent.t :=
  StructuredEvent.new "uuid-1" (PStr "meeting") (PStr "Meeting") PNone
    None None None PNone PNone PNone (PStr "mail") PNone None
    (PBool false) PNone.

(** An engine that extracts the same meeting from every event. *)
Definition engine_ok (raw : RawEvent) (w : nat)
    : result StructuredEvent.t * nat :=
  tick (Ok meeting_event) w.

Definition orchestrator_ok (cs : list (SourceConnector nat))
    : Orchestrator.t nat :=
  {| connectors := cs;
     process_event := engine_ok;
     calendar_providers := [("google", calendar_ok); ("ical", calendar_down)] |}.

(** A connector that cannot record what was processed. *)
Definition unmarkable : SourceConnector nat :=
  {| conn_source_id := "mail";
     connect := tick (Ok ());
     disconnect := tick (Ok ());
     mark_as_processed :=
       fun _ => tick (Raise (RuntimeError "label update failed")) |}.


(** A connector whose [disconnect] raises. *)
Definition stuck : SourceConnector nat :=
  {| conn_source_id := "stuck";
     connect := tick (Ok ());
     disconnect := tick (Raise (RuntimeError "socket closed"));
     mark_as_processed := fun _ => tick (Ok true) |}.

(** A fetch that yields two events and ends, and one that yields an
    event and then raises. *)
Definition steady : FetchingConnector nat :=
  {| connector := mail;
     fetch_events := fun w => ([src_1; src_2], None, S w) |}.

Definition flaky : FetchingConnector nat :=
  {| connector := mail;
     fetch_events :=
       fun w => ([src_1],
                 Some (RuntimeError "Error fetching Gmail events"), S w) |}.

Definition llm_backwards : gmap string pyval :=
  {[ "title" := PStr "Meeting";
     "start_time" := PStr "2024-05-01T11:00:00";
     "end_time" := PStr "2024-05-01T10:00:00" ]}.

Definition engine : Engine.t nat :=
  {| Engine.text := text;
     Engine.builtins := py;
     Engine.extract_event_details := fun _ _ _ w => (Ok llm_meeting, S w);
     Engine.uuid4 := fun w => ("uuid-1", S w);
     Engine.now_isoformat := fun _ => "2024-05-01T09:00:00" |}.

End MoreFixtures.

(** * Properties *)

(** ** The queue *)

Module QueueFacts.
Import Queue.

Lemma consume_next_cons (ev : RawEvent) (rest : list RawEvent)
    (pr : gmap (option string) RawEvent) :
  consume_next {| queue := ev :: rest; processing := pr |} =
  Some (ev, {| queue := rest; processing := <[event_id ev := ev]> pr |}).
Proof. reflexivity. Qed.

(** Draining yields a prefix of the backlog, in backlog order. *)
Lemma consume_all_yields (n : nat) (q : t) :
  (consume_all n q).1 = take n (queue q).
Proof.
  revert q. induction n as [|n IH]; intros [bl pr]; simpl; [done|].
  destruct bl as [|ev rest]; simpl; [done|].
  specialize (IH {| queue := rest; processing := <[event_id ev := ev]> pr |}).
  destruct (consume_all n _) as [evs q'']. simpl in *. by rewrite IH.
Qed.

Lemma consume_all_backlog (n : nat) (q : t) :
  queue (consume_all n q).2 = drop n (queue q).
Proof.
  revert q. induction n as [|n IH]; intros [bl pr]; simpl; [done|].
  destruct bl as [|ev rest]; simpl; [done|].
  specialize (IH {| queue := rest; processing := <[event_id ev := ev]> pr |}).
  destruct (consume_all n _) as [evs q'']. simpl in *. by rewrite IH.
Qed.

Lemma consume_all_full (q : t) :
  (consume_all (length (queue q)) q).1 = queue q.
Proof. by rewrite consume_all_yields, firstn_all. Qed.

Lemma ack_not_in_flight (eid : option string) (q : t) :
  processing q !! eid = None → ack eid q = (true, q).
Proof. intros H. unfold ack. by rewrite H. Qed.

Lemma nack_not_in_flight (eid : option string) (requeue : bool) (q : t) :
  processing q !! eid = None → nack eid requeue q = (true, q).
Proof. intros H. unfold nack. by rewrite H. Qed.

Lemma consume_next_Some (q q' : t) (ev : RawEvent) :
  consume_next q = Some (ev, q') →
  ∃ rest, queue q = ev :: rest ∧ queue q' = rest ∧
          processing q' = <[event_id ev := ev]> (processing q).
Proof.
  unfold consume_next. destruct (queue q) as [|x rest] eqn:E; [done|].
  intros [= <- <-]. by exists rest.
Qed.

Lemma consume_next_in_flight (q q' : t) (ev : RawEvent) :
  consume_next q = Some (ev, q') → processing q' !! event_id ev = Some ev.
Proof.
  intros (rest & _ & _ & ->)%consume_next_Some. apply lookup_insert_eq.
Qed.

(** *** The [keyed] invariant *)

Lemma keyed_init : keyed init.
Proof. intros k ev. cbn. by rewrite lookup_empty. Qed.

Lemma keyed_step (o : op) (q : t) : keyed q → keyed (step o q).2.
Proof.
  intros Hk. destruct o as [event| |eid|eid requeue]; simpl.
  - exact Hk.
  - destruct (consume_next q) as [[ev q']|] eqn:E; simpl; [|exact Hk].
    apply consume_next_Some in E as (rest & _ & _ & Hp).
    intros k x. rewrite Hp, lookup_insert. case_decide; [naive_solver|].
    apply Hk.
  - unfold ack. destruct (processing q !! eid); simpl; [|exact Hk].
    intros k x. cbn. rewrite lookup_delete. case_decide; [done|]. apply Hk.
  - unfold nack. destruct (processing q !! eid); simpl; [|exact Hk].
    intros k x. cbn. rewrite lookup_delete. case_decide; [done|]. apply Hk.
Qed.

Lemma keyed_run (ops : list op) (q : t) : keyed q → keyed (run ops q).2.
Proof.
  revert q. induction ops as [|o ops IH]; intros q Hk; simpl; [done|].
  pose proof (keyed_step o q Hk) as Hs.
  destruct (step o q) as [ys q']. specialize (IH q' Hs).
  by destruct (run ops q') as [zs q''].
Qed.

End QueueFacts.

Module QueueClaims.
Import Queue QueueFacts.

(** *** Absence of an id is kept by every call but a publish of it *)

Lemma absent_step (i : option string) (o : op) (q : t) :
  absent i q →
  (∀ ev, o = OpPublish ev → event_id ev ≠ i) →
  absent i (step o q).2 ∧ ∀ y, y ∈ (step o q).1 → event_id y ≠ i.
Proof.
  intros [Hq Hp] Hpub. destruct o as [event| |eid|eid requeue]; simpl.
  - split; [split; [|exact Hp]|by intros y ?%elem_of_nil].
    intros ev [?| ->%list_elem_of_singleton]%elem_of_app; eauto.
  - destruct (consume_next q) as [[ev q']|] eqn:E; simpl;
      [|split; [by split|by intros y ?%elem_of_nil]].
    apply consume_next_Some in E as (rest & Hbl & Hbl' & Hpr).
    assert (event_id ev ≠ i) as Hev by (apply Hq; rewrite Hbl; left).
    split; [split|].
    + intros x Hx. apply Hq. rewrite Hbl, <- Hbl'. by right.
    + intros k x. rewrite Hpr, lookup_insert. case_decide; [naive_solver|].
      apply Hp.
    + by intros y ->%list_elem_of_singleton.
  - split; [|by intros y ?%elem_of_nil].
    unfold ack. destruct (processing q !! eid); simpl; [|by split].
    split; [exact Hq|]. intros k x. cbn. rewrite lookup_delete.
    case_decide; [done|]. apply Hp.
  - split; [|by intros y ?%elem_of_nil].
    unfold nack. destruct (processing q !! eid) as [ev|] eqn:E; simpl;
      [|by split].
    split.
    + intros x. cbn. destruct requeue; [|apply Hq].
      intros [?| ->%list_elem_of_singleton]%elem_of_app; eauto.
    + intros k x. cbn. rewrite lookup_delete. case_decide; [done|]. apply Hp.
Qed.

Lemma absent_run (i : option string) (ops : list op) (q : t) :
  absent i q →
  (∀ ev, OpPublish ev ∈ ops → event_id ev ≠ i) →
  ∀ y, y ∈ (run ops q).1 → event_id y ≠ i.
Proof.
  revert q. induction ops as [|o ops IH]; intros q Ha Hpub y; simpl.
  { by intros ?%elem_of_nil. }
  destruct (absent_step i o q Ha) as [Ha' Hy].
  { intros ev ->. apply Hpub. left. }
  destruct (step o q) as [ys q']. simpl in *.
  specialize (IH q' Ha').
  destruct (run ops q') as [zs q'']. simpl in *.
  intros [?|?]%elem_of_app; [by apply Hy|].
  apply IH; [|done]. intros ev Hev. apply Hpub. by right.
Qed.

(** Dropping an in-flight entry of a [keyed] queue whose backlog holds no
    other event of that id leaves the id absent. *)
Lemma absent_after_drop (i : option string) (q : t) :
  keyed q →
  (∀ ev, ev ∈ queue q → event_id ev ≠ i) →
  absent i (nack i false q).2.
Proof.
  intros Hk Hq. unfold nack.
  destruct (processing q !! i) as [ev|] eqn:E; simpl.
  - split; [exact Hq|]. intros k x. cbn. rewrite lookup_delete.
    case_decide; [done|]. intros Hx. by rewrite (Hk _ _ Hx).
  - split; [exact Hq|]. intros k x Hx. rewrite (Hk _ _ Hx).
    intros ->. congruence.
Qed.

(** C1. Two events published in a row come out of [consume] in that
    order, behind whatever the backlog already held, and each pull takes
    the head of the backlog and stores it in [processing] under its own
    [event_id]. *)
Theorem publish_consume_fifo (q : t) (e1 e2 : RawEvent)
    (ev : RawEvent) (rest : list RawEvent)
    (pr : gmap (option string) RawEvent) :
  let q2 := (publish e2 (publish e1 q).2).2 in
  (publish e1 q).1 = true ∧
  (publish e2 (publish e1 q).2).1 = true ∧
  (consume_all (length (queue q2)) q2).1 = queue q ++ [e1; e2] ∧
  queue (consume_all (length (queue q2)) q2).2 = [] ∧
  consume_next {| queue := ev :: rest; processing := pr |} =
    Some (ev, {| queue := rest; processing := <[event_id ev := ev]> pr |}).
Proof.
  cbn zeta. repeat split.
  - rewrite consume_all_full. cbn. by rewrite <- app_assoc.
  - rewrite consume_all_backlog. apply drop_all.
Qed.

(** C2. [ack] and [nack] of an id that is not in flight return [True]
    and change neither the backlog nor the in-flight map; so a [nack]
    that follows the [ack] of a consumed event does nothing. *)
Theorem ack_nack_unknown_id_noop (q : t) (eid : option string)
    (requeue : bool) :
  processing q !! eid = None →
  ack eid q = (true, q) ∧
  nack eid requeue q = (true, q) ∧
  ∀ q0 e q1, consume_next q0 = Some (e, q1) →
    (ack (event_id e) q1).1 = true ∧
    nack (event_id e) requeue (ack (event_id e) q1).2 =
      (true, (ack (event_id e) q1).2).
Proof.
  intros H. split; [by apply ack_not_in_flight|].
  split; [by apply nack_not_in_flight|].
  intros q0 e q1 Hin%consume_next_in_flight.
  unfold ack at 1 2 3. rewrite Hin. split; [done|].
  apply nack_not_in_flight. cbn. apply lookup_delete_eq.
Qed.

(** C3. After [consume] has yielded [e], [nack(e.event_id, True)] takes
    [e] out of the in-flight map and appends that same event behind the
    events already queued; draining the queue then yields it again, with
    the same [event_id] and payload. *)
Theorem nack_requeue_redelivers (q q1 : t) (e : RawEvent) :
  consume_next q = Some (e, q1) →
  let q2 := (nack (event_id e) true q1).2 in
  (nack (event_id e) true q1).1 = true ∧
  processing q2 = delete (event_id e) (processing q1) ∧
  processing q2 !! event_id e = None ∧
  queue q2 = queue q1 ++ [e] ∧
  (consume_all (length (queue q2)) q2).1 = queue q1 ++ [e] ∧
  ∃ e', e' ∈ (consume_all (length (queue q2)) q2).1 ∧
        event_id e' = event_id e ∧ raw_payload e' = raw_payload e.
Proof.
  intros Hin%consume_next_in_flight. cbn zeta.
  unfold nack. rewrite Hin. cbn.
  repeat split; [apply lookup_delete_eq| |].
  - set (q2 := {| queue := queue q1 ++ [e] |}).
    change (queue q1 ++ [e]) with (queue q2). apply consume_all_full.
  - exists e. split; [|done].
    set (q2 := {| queue := queue q1 ++ [e] |}).
    change (queue q1 ++ [e]) with (queue q2).
    rewrite consume_all_full. subst q2. cbn.
    apply elem_of_app. right. by left.
Qed.

(** C4. On a queue driven through its methods only, after [consume] has
    yielded [e], [nack(e.event_id, False)] drops it: nothing is appended
    to the backlog, and whatever calls follow, no pull yields an event of
    that id, as long as no other publication of the id is pending in the
    backlog or made later. *)
Theorem nack_without_requeue_drops (history : list op) (q1 : t)
    (e : RawEvent) (ops : list op) :
  consume_next (run history init).2 = Some (e, q1) →
  (∀ ev, ev ∈ queue q1 → event_id ev ≠ event_id e) →
  (∀ ev, OpPublish ev ∈ ops → event_id ev ≠ event_id e) →
  let q2 := (nack (event_id e) false q1).2 in
  (nack (event_id e) false q1).1 = true ∧
  queue q2 = queue q1 ∧
  processing q2 !! event_id e = None ∧
  ∀ y, y ∈ (run ops q2).1 → event_id y ≠ event_id e.
Proof.
  intros Hc Hbl Hpub. cbn zeta.
  assert (keyed q1) as Hk1.
  { pose proof (keyed_step OpConsume _ (keyed_run history init keyed_init))
      as Hs.
    simpl in Hs. by rewrite Hc in Hs. }
  split; [|split; [|split]].
  - unfold nack. by destruct (processing q1 !! event_id e).
  - unfold nack. by destruct (processing q1 !! event_id e).
  - unfold nack. rewrite (consume_next_in_flight _ _ _ Hc). cbn.
    apply lookup_delete_eq.
  - apply absent_run; [|exact Hpub]. by apply absent_after_drop.
Qed.

End QueueClaims.

(** ** The extractor *)

Module ExtractorClaims.
Import DataExtractor.

Lemma py_truthy_str (s : string) : py_truthy (PStr s) = true → s ≠ "".
Proof. intros H ->. discriminate H. Qed.

Lemma validate_well_formed (event : StructuredEvent.t) :
  _validate event = Ok () ↔ well_formed event.
Proof.
  unfold _validate, well_formed, datetime_ge. split.
  - destruct (py_truthy (StructuredEvent.title event)) eqn:Ht; [|done].
    cbn. intros H. split; [done|]. split.
    { intros s Hs. apply py_truthy_str. by rewrite <- Hs. }
    intros st en Hst Hen. rewrite Hst, Hen in H.
    destruct (Bool.eqb (aware st) (aware en)) eqn:Ha; [|done].
    apply Bool.eqb_prop in Ha.
    destruct (instant en <=? instant st)%Z eqn:Hle; [done|].
    apply Z.leb_gt in Hle. done.
  - intros (Ht & _ & Hw). rewrite Ht. cbn.
    destruct (StructuredEvent.start_time event) as [st|]; [|done].
    destruct (StructuredEvent.end_time event) as [en|]; [|done].
    destruct (Hw st en eq_refl eq_refl) as [-> Hlt].
    rewrite Bool.eqb_reflx.
    apply Z.leb_gt in Hlt. by rewrite Hlt.
Qed.

(** What [extract] returns when it returns: the constructed event, which
    passed [_validate]. *)
Lemma extract_Ok (py : PyBuiltins) (uuid now : string)
    (normalized_event llm_result : gmap string pyval)
    (event : StructuredEvent.t) :
  extract py uuid now normalized_event llm_result = Ok event →
  ∃ alert_before,
    parse_alert_before py (dict_get llm_result "alert_before_minutes")
      = Ok alert_before ∧
    StructuredEvent.alert_before_minutes event =
      Some (default 15%Z alert_before) ∧
    _validate event = Ok ().
Proof.
  unfold extract.
  destruct (parse_alert_before _ _) as [alert_before|]; [|done].
  destruct (build_metadata _ _) as [metadata|]; [|done].
  destruct (_validate _) as [[]|] eqn:Hv; [|done].
  intros [= <-]. exists alert_before. split; [done|]. split; [|done].
  by destruct alert_before.
Qed.

(** C8. A structured event that [extract] returns has a title that is
    not empty and, when it has both a start and an end, a start strictly
    before the end; [_validate] accepts exactly the events of that shape,
    so [extract] raises on any other. *)
Theorem extract_returns_well_formed (py : PyBuiltins) (uuid now : string)
    (normalized_event llm_result : gmap string pyval)
    (event : StructuredEvent.t) :
  extract py uuid now normalized_event llm_result = Ok event →
  well_formed event ∧
  ∀ candidate, _validate candidate = Ok () ↔ well_formed candidate.
Proof.
  intros (alert_before & _ & _ & Hv)%extract_Ok.
  split; [by apply validate_well_formed|]. apply validate_well_formed.
Qed.

(** C9 as stated fails: a float is not an integer, yet [int] converts it,
    so the event keeps the truncated value instead of the default. *)
Lemma alert_non_integer_counterexample :
  is_integer (PFloat Fixtures.f20_5) = false ∧
  ∃ event,
    extract Fixtures.py "uuid-1" "2024-05-01T09:00:00"
      (Fixtures.normalized Fixtures.src_1)
      (Fixtures.llm_alert (PFloat Fixtures.f20_5)) = Ok event ∧
    StructuredEvent.alert_before_minutes event = Some 20%Z ∧
    StructuredEvent.alert_before_minutes event ≠ Some 15%Z.
Proof.
  split; [reflexivity|]. eexists. split; [vm_compute; reflexivity|].
  split; [reflexivity|discriminate].
Qed.

(** C9, amended. An event constructed with [alert_before_minutes=None]
    has the value 15, and so has every event [extract] returns when the
    extraction result lacks the field, holds [None] for it, or holds a
    value on which [int] raises [ValueError] or [TypeError]; a value that
    [int] converts gives the converted integer. *)
Theorem alert_default_15 (py : PyBuiltins) (uuid now : string)
    (normalized_event llm_result : gmap string pyval)
    (event : StructuredEvent.t) :
  extract py uuid now normalized_event llm_result = Ok event →
  (∀ eid ty ti de du st en pa lo pr sr me ir rp,
     StructuredEvent.alert_before_minutes
       (StructuredEvent.new eid ty ti de du st en pa lo pr sr me None ir rp)
     = Some 15%Z) ∧
  (llm_result !! "alert_before_minutes" = None →
   StructuredEvent.alert_before_minutes event = Some 15%Z) ∧
  (llm_result !! "alert_before_minutes" = Some PNone →
   StructuredEvent.alert_before_minutes event = Some 15%Z) ∧
  (∀ v msg, llm_result !! "alert_before_minutes" = Some v →
     py_int py v = Raise (ValueError msg) ∨
     py_int py v = Raise (TypeError msg) →
     StructuredEvent.alert_before_minutes event = Some 15%Z) ∧
  (∀ v z, llm_result !! "alert_before_minutes" = Some v →
     v ≠ PNone → py_int py v = Ok z →
     StructuredEvent.alert_before_minutes event = Some z).
Proof.
  intros (alert_before & Hp & -> & _)%extract_Ok.
  unfold dict_get in Hp.
  split; [done|]. split; [|split; [|split]].
  - intros Hl. rewrite Hl in Hp. cbn in Hp. by injection Hp as <-.
  - intros Hl. rewrite Hl in Hp. cbn in Hp. by injection Hp as <-.
  - intros v msg Hl Hi. rewrite Hl in Hp. cbn in Hp.
    unfold parse_alert_before in Hp.
    destruct v; destruct Hi as [Hi|Hi]; rewrite ?Hi in Hp;
      try (by injection Hp as <-); cbn in Hi; try discriminate.
  - intros v z Hl Hne Hi. rewrite Hl in Hp. cbn in Hp.
    unfold parse_alert_before in Hp.
    destruct v; try done; rewrite Hi in Hp; by injection Hp as <-.
Qed.

End ExtractorClaims.

(** ** The orchestrator *)

Module OrchestratorFacts.
Import Orchestrator.

(** Reduce the matches and field accesses a run equation leaves behind,
    without unfolding the combinators that are still to run. *)
Ltac run_step :=
  cbv beta iota; cbn [running event_queue world trace fst snd].

Section WithWorld.
Context {W : Type}.
Implicit Types (o : Orchestrator.t W) (s : state W) (raw : RawEvent).

Lemma or_empty_Some (i : string) : or_empty (Some i) = i.
Proof. unfold or_empty. by destruct (String.eqb_spec i "") as [->|]. Qed.

Lemma state_eta s :
  s = mkState (running s) (event_queue s) (world s) (trace s).
Proof. by destruct s. Qed.

(** How each combinator runs from a given state. *)
Lemma bind_run {A B} (m : M W A) (k : A → M W B) s :
  bind m k s =
  match m s with
  | (Ok a, s') => k a s'
  | (Raise e, s') => (Raise e, s')
  end.
Proof. reflexivity. Qed.

Lemma try_except_run {A} (m : M W A) (h : pyexn → M W A) s :
  try_except m h s =
  match m s with
  | (Ok a, s') => (Ok a, s')
  | (Raise e, s') => h e s'
  end.
Proof. reflexivity. Qed.

Lemma ret_run {A} (a : A) s : ret a s = (Ok a, s).
Proof. reflexivity. Qed.

Lemma log_run (c : call) s :
  log c s =
  (Ok (), mkState (running s) (event_queue s) (world s) (trace s ++ [c])).
Proof. reflexivity. Qed.

Lemma extern_run {A} (f : W → result A * W) s :
  extern f s =
  ((f (world s)).1,
   mkState (running s) (event_queue s) (f (world s)).2 (trace s)).
Proof. unfold extern. by destruct (f (world s)). Qed.

Lemma on_queue_run {A} (f : Queue.t → A * Queue.t) s :
  on_queue f s =
  (Ok (f (event_queue s)).1,
   mkState (running s) (f (event_queue s)).2 (world s) (trace s)).
Proof. unfold on_queue. by destruct (f (event_queue s)). Qed.

(** The registry maps a source id to a configured connector of that
    id. *)
Lemma connector_map_lookup o (k : string) (c : SourceConnector W) :
  connector_map o !! k = Some c → conn_source_id c = k ∧ c ∈ connectors o.
Proof.
  unfold connector_map. generalize (connectors o). intros cs.
  induction cs as [|x cs IH] using rev_ind; cbn.
  { by rewrite lookup_empty. }
  rewrite foldl_app. cbn. rewrite lookup_insert. case_decide.
  - intros [= <-]. split; [done|]. apply elem_of_app. right. by left.
  - intros [? ?]%IH. split; [done|]. apply elem_of_app. by left.
Qed.


(** The sink fan-out never raises, touches neither the queue nor the
    running flag, and makes sink calls only. *)
Lemma integrate_calendar_spec o (event : StructuredEvent.t) s :
  ∃ w sinks,
    _integrate_calendar o event s =
      (Ok (), mkState (running s) (event_queue s) w (trace s ++ sinks)) ∧
    forallb is_sink_call sinks = true.
Proof.
  unfold _integrate_calendar.
  match goal with |- context [for_each _ ?b] => set (body := b) end.
  assert (∀ item s', ∃ w calls,
            body item s' =
              (Ok (), mkState (running s') (event_queue s') w
                        (trace s' ++ calls)) ∧
            forallb is_sink_call calls = true) as Hbody.
  { intros [name p] s'. subst body. cbn.
    unfold try_except, bind, log, extern. cbn.
    destruct (create_event p event "primary" (world s')) as [[[]|e] w1]; cbn.
    - by exists w1, [CallCreateEvent name event "primary"].
    - exists w1, [CallCreateEvent name event "primary";
                  CallPrint "Error integrating with " e].
      by rewrite <- app_assoc. }
  clearbody body. generalize (calendar_providers o). intros ps.
  revert s. induction ps as [|item ps IH]; intros s; cbn [for_each].
  { exists (world s), []. rewrite app_nil_r. unfold ret.
    by rewrite <- state_eta. }
  unfold bind.
  destruct (Hbody item s) as (w1 & calls & -> & Hc).
  destruct (IH (mkState (running s) (event_queue s) w1 (trace s ++ calls)))
    as (w & sinks & -> & Hs). cbn.
  exists w, (calls ++ sinks). rewrite <- app_assoc. split; [done|].
  rewrite forallb_app. by rewrite Hc, Hs.
Qed.

(** The [try] block of the loop body, case by case. *)
Lemma process_one_try_cases o raw s :
  let id := or_empty (event_id raw) in
  match process_event o raw (world s) with
  | (Raise e, w1) =>
      process_one_try o raw s =
        (Raise e, mkState (running s) (event_queue s) w1
                    (trace s ++ [CallProcessEvent raw]))
  | (Ok event, w1) =>
      ∃ w2 sinks, forallb is_sink_call sinks = true ∧
        match connector_map o !! source_id raw with
        | None =>
            process_one_try o raw s =
              (Ok (), mkState (running s)
                        (Queue.ack (Some id) (event_queue s)).2 w2
                        (trace s ++ [CallProcessEvent raw] ++ sinks ++
                         [CallAck id]))
        | Some c =>
            match mark_as_processed c raw w2 with
            | (Ok _, w3) =>
                process_one_try o raw s =
                  (Ok (), mkState (running s)
                            (Queue.ack (Some id) (event_queue s)).2 w3
                            (trace s ++ [CallProcessEvent raw] ++ sinks ++
                             [CallMarkAsProcessed (conn_source_id c) raw;
                              CallAck id]))
            | (Raise e, w3) =>
                process_one_try o raw s =
                  (Raise e, mkState (running s) (event_queue s) w3
                              (trace s ++ [CallProcessEvent raw] ++ sinks ++
                               [CallMarkAsProcessed (conn_source_id c) raw]))
            end
        end
  end.
Proof.
  cbn zeta. unfold process_one_try.
  rewrite bind_run, log_run. run_step.
  rewrite bind_run, extern_run. run_step.
  destruct (process_event o raw (world s)) as [[event|e] w1]; run_step;
    [|done].
  rewrite bind_run.
  match goal with |- context [_integrate_calendar o event ?s1] =>
    destruct (integrate_calendar_spec o event s1) as (w2 & sinks & -> & Hs)
  end. run_step.
  exists w2, sinks. split; [done|].
  unfold _send_notifications. rewrite bind_run, ret_run. run_step.
  rewrite bind_run.
  destruct (connector_map o !! source_id raw) as [c|].
  - rewrite bind_run, log_run. run_step.
    rewrite bind_run, extern_run. run_step.
    destruct (mark_as_processed c raw w2) as [[b|e] w3]; run_step.
    + rewrite ret_run, bind_run, log_run. run_step.
      rewrite bind_run, on_queue_run. run_step.
      rewrite ret_run. by rewrite <- !app_assoc.
    + by rewrite <- !app_assoc.
  - rewrite ret_run, bind_run, log_run. run_step.
    rewrite bind_run, on_queue_run. run_step.
    rewrite ret_run. by rewrite <- !app_assoc.
Qed.

(** The handler never raises. *)
Lemma process_one_except_spec o raw (e : pyexn) s :
  let id := or_empty (event_id raw) in
  process_one_except o raw e s =
    (Ok (), mkState (running s)
              (Queue.nack (Some id) true (event_queue s)).2 (world s)
              (trace s ++ [CallPrint "Error processing event: " e;
                           CallNack id true])).
Proof.
  cbn zeta. unfold process_one_except.
  rewrite bind_run, log_run. run_step.
  rewrite bind_run, log_run. run_step.
  rewrite bind_run, on_queue_run. run_step.
  rewrite ret_run. by rewrite <- app_assoc.
Qed.

End WithWorld.
End OrchestratorFacts.

Module OrchestratorClaims.
Import Orchestrator OrchestratorFacts.

Section WithWorld.
Context {W : Type}.
Implicit Types (o : Orchestrator.t W) (s : state W) (raw : RawEvent).



(** The loop body never lets an exception out. *)
Lemma process_one_never_raises o raw s :
  ∃ s', process_one o raw s = (Ok (), s').
Proof.
  unfold process_one. rewrite try_except_run.
  destruct (process_one_try o raw s) as [[[]|e] s1]; run_step; [by eexists|].
  rewrite process_one_except_spec. by eexists.
Qed.



(** Where the loop body leaves the queue: acknowledged or sent back, under
    a key that is always a string. *)
Lemma process_one_queue o raw s :
  let eid := Some (or_empty (event_id raw)) in
  event_queue (process_one o raw s).2 = (Queue.ack eid (event_queue s)).2 ∨
  event_queue (process_one o raw s).2 = (Queue.nack eid true (event_queue s)).2.
Proof.
  cbn zeta. unfold process_one. rewrite try_except_run.
  pose proof (process_one_try_cases o raw s) as H. cbn zeta in H.
  destruct (process_event o raw (world s)) as [[event|e] w1].
  - destruct H as (w2 & sinks & _ & H).
    destruct (connector_map o !! source_id raw) as [c|].
    + destruct (mark_as_processed c raw w2) as [[b|e] w3]; rewrite H;
        run_step; [by left|].
      rewrite process_one_except_spec. by right.
    + rewrite H. by left.
  - rewrite H. run_step. rewrite process_one_except_spec. by right.
Qed.

Lemma ack_other_key (k k' : option string) (q : Queue.t) :
  k ≠ k' →
  Queue.processing (Queue.ack k q).2 !! k' = Queue.processing q !! k'.
Proof.
  intros Hne. unfold Queue.ack. destruct (Queue.processing q !! k); [|done].
  cbn. by rewrite lookup_delete_ne.
Qed.

Lemma nack_other_key (k k' : option string) (requeue : bool) (q : Queue.t) :
  k ≠ k' →
  Queue.processing (Queue.nack k requeue q).2 !! k' = Queue.processing q !! k'.
Proof.
  intros Hne. unfold Queue.nack. destruct (Queue.processing q !! k); [|done].
  cbn. by rewrite lookup_delete_ne.
Qed.

(** The loop body leaves the entry stored under [None] alone. *)
Lemma process_one_keeps_None o raw s :
  Queue.processing (event_queue (process_one o raw s).2) !! None =
  Queue.processing (event_queue s) !! None.
Proof.
  destruct (process_one_queue o raw s) as [-> | ->].
  - by apply ack_other_key.
  - by apply nack_other_key.
Qed.

Lemma consume_loop_keeps_None o (n : nat) s :
  is_Some (Queue.processing (event_queue s) !! None) →
  is_Some (Queue.processing (event_queue (consume_loop o n s).2) !! None).
Proof.
  revert s. induction n as [|n IH]; intros s Hs; cbn [consume_loop]; [done|].
  destruct (Queue.consume_next (event_queue s)) as [[raw q]|] eqn:E; [|done].
  rewrite bind_run.
  match goal with |- context [process_one o raw ?s1] =>
    pose proof (process_one_keeps_None o raw s1) as Hk;
    destruct (process_one_never_raises o raw s1) as [s2 Heq] end.
  rewrite Heq in Hk |- *. run_step. cbn in Hk. apply IH. rewrite Hk.
  apply QueueFacts.consume_next_Some in E as (rest & _ & _ & ->).
  rewrite lookup_insert. by case_decide.
Qed.

Lemma for_each_app {A} (xs ys : list A) (body : A → M W unit) s :
  for_each (xs ++ ys) body s =
  bind (for_each xs body) (fun _ => for_each ys body) s.
Proof.
  revert s. induction xs as [|x xs IH]; intros s; cbn [for_each app].
  { by rewrite bind_run, ret_run. }
  rewrite !bind_run. destruct (body x s) as [[[]|e] s1]; [|done].
  rewrite IH. by rewrite bind_run.
Qed.




(** C7, amended. [start] connects the connectors in list order; the
    first [connect] that raises propagates out of [start]: the later
    connectors are not connected and no ingestion or processing loop is
    scheduled.  When every [connect] returns, the ingestion loops of all
    connectors and the processing loop are scheduled. *)
Theorem start_aborts_on_connect_failure o s
    (pre post : list (SourceConnector W)) (c : SourceConnector W)
    (s1 : state W) (e : pyexn) (w : W) :
  connectors o = pre ++ c :: post →
  connect_each pre (mkState true (event_queue s) (world s) (trace s))
    = (Ok (), s1) →
  connect c (world s1) = (Raise e, w) →
  start o s =
    (Raise e,
     mkState (running s1) (event_queue s1) w
       (trace s1 ++ [CallConnect (conn_source_id c)])) ∧
  (¬ ∃ tasks s', start o s = (Ok tasks, s')) ∧
  ∀ o' s1',
    connect_each (connectors o')
      (mkState true (event_queue s) (world s) (trace s)) = (Ok (), s1') →
    start o' s =
      (Ok (map (fun c => IngestionLoop (conn_source_id c)) (connectors o')
           ++ [ProcessingLoop]), s1').
Proof.
  intros Hcs Hpre Hc.
  assert (start o s =
    (Raise e,
     mkState (running s1) (event_queue s1) w
       (trace s1 ++ [CallConnect (conn_source_id c)]))) as Hstart.
  { unfold start. rewrite bind_run. unfold set_running at 1. run_step.
    rewrite bind_run. unfold connect_each in *. rewrite Hcs, for_each_app.
    rewrite bind_run, Hpre. run_step. cbn [for_each].
    rewrite !bind_run, log_run. run_step.
    rewrite extern_run. run_step. rewrite Hc. by run_step. }
  split; [exact Hstart|]. split.
  { intros (tasks & s' & H). rewrite Hstart in H. discriminate H. }
  intros o' s1' Hall. unfold start.
  rewrite bind_run. unfold set_running at 1. run_step.
  rewrite bind_run, Hall. run_step. by rewrite ret_run.
Qed.

(** C10. An event without an id is stored in flight under the key
    [None], while the loop body acknowledges (or rejects) the id [""]:
    that [ack] returns [True] and leaves the [None] entry where it is, so
    the event is still in flight after it was processed successfully, and
    nothing the processing loop does later empties that slot. *)
Theorem none_id_stays_in_flight o raw (q q1 : Queue.t) :
  event_id raw = None →
  Queue.consume_next q = Some (raw, q1) →
  Queue.processing q1 !! None = Some raw ∧
  or_empty (event_id raw) = "" ∧
  (Queue.ack (Some "") q1).1 = true ∧
  Queue.processing (Queue.ack (Some "") q1).2 !! None = Some raw ∧
  (∀ s s', event_queue s = q1 →
     process_one_try o raw s = (Ok (), s') →
     (∃ calls, trace s' = trace s ++ calls ++ [CallAck ""]) ∧
     event_queue s' = (Queue.ack (Some "") q1).2 ∧
     Queue.processing (event_queue s') !! None = Some raw) ∧
  (∀ s, event_queue s = q1 →
     Queue.processing (event_queue (process_one o raw s).2) !! None
       = Some raw) ∧
  (∀ s n, event_queue s = q1 →
     is_Some (Queue.processing
                (event_queue (consume_loop o n s).2) !! None)).
Proof.
  intros Hid Hc.
  pose proof (QueueFacts.consume_next_in_flight _ _ _ Hc) as Hin.
  rewrite Hid in Hin. rewrite Hid. cbn [or_empty].
  split; [done|]. split; [done|]. split.
  { unfold Queue.ack. by destruct (Queue.processing q1 !! Some ""). }
  split; [by rewrite ack_other_key|]. split; [|split].
  - intros s s' Hs Htry.
    pose proof (process_one_try_cases o raw s) as H. cbn zeta in H.
    rewrite Hid in H. cbn [or_empty] in H.
    destruct (process_event o raw (world s)) as [[event|e] w1];
      [|by rewrite H in Htry].
    destruct H as (w2 & sinks & _ & H).
    destruct (connector_map o !! source_id raw) as [c|].
    + destruct (mark_as_processed c raw w2) as [[b|e] w3];
        rewrite H in Htry; [|done].
      injection Htry as <-. cbn [trace event_queue]. rewrite Hs.
      split; [|split; [done|by rewrite ack_other_key]].
      exists ([CallProcessEvent raw] ++ sinks ++
              [CallMarkAsProcessed (conn_source_id c) raw]).
      by rewrite <- !app_assoc.
    + rewrite H in Htry. injection Htry as <-.
      cbn [trace event_queue]. rewrite Hs.
      split; [|split; [done|by rewrite ack_other_key]].
      exists ([CallProcessEvent raw] ++ sinks). by rewrite <- !app_assoc.
  - intros s Hs. by rewrite process_one_keeps_None, Hs.
  - intros s n Hs. apply consume_loop_keeps_None. rewrite Hs, Hin. by eexists.
Qed.

End WithWorld.


(** C7 as stated fails: with a connector whose [connect] raises listed
    before a working one, [start] raises and hands no coroutine to
    [asyncio.gather], so the working connector's ingestion loop is not
    scheduled (it is not even connected). *)
Lemma connect_failure_counterexample :
  let o := Fixtures.orchestrator [Fixtures.broken; Fixtures.mail] in
  let s0 := Fixtures.state_of [] in
  Fixtures.mail ∈ connectors o ∧
  (start o s0).1 = Raise (ConnectionError "Failed to connect to Gmail") ∧
  trace (start o s0).2 = [CallConnect "broken"] ∧
  ¬ ∃ tasks s', start o s0 = (Ok tasks, s') ∧ IngestionLoop "mail" ∈ tasks.
Proof.
  cbn zeta. split; [right; left|]. split; [reflexivity|].
  split; [reflexivity|]. intros (tasks & s' & H & _). discriminate H.
Qed.

End OrchestratorClaims.

(** ** The theorems at concrete pipelines *)

Module Examples.
Import Queue Orchestrator Fixtures.

Lemma ack_nack_unknown_id_noop_witness :
  processing q_two_pulled !! Some "src_2" = None ∧
  ack (Some "src_2") q_two_pulled = (true, q_two_pulled) ∧
  nack (Some "src_2") true q_two_pulled = (true, q_two_pulled) ∧
  nack (Some "src_1") true (ack (Some "src_1") q_two_pulled).2 =
    (true, (ack (Some "src_1") q_two_pulled).2).
Proof.
  assert (processing q_two_pulled !! Some "src_2" = None) as H
    by (vm_compute; reflexivity).
  destruct (QueueClaims.ack_nack_unknown_id_noop
              q_two_pulled (Some "src_2") true H) as (Ha & Hn & Hc).
  split; [exact H|]. split; [exact Ha|]. split; [exact Hn|].
  apply (Hc q_two src_1 q_two_pulled). reflexivity.
Defined.

Lemma nack_requeue_redelivers_witness :
  consume_next q_two = Some (src_1, q_two_pulled) ∧
  queue (nack (Some "src_1") true q_two_pulled).2 = [src_2; src_1] ∧
  (consume_all 2 (nack (Some "src_1") true q_two_pulled).2).1
    = [src_2; src_1].
Proof.
  assert (consume_next q_two = Some (src_1, q_two_pulled)) as H
    by reflexivity.
  destruct (QueueClaims.nack_requeue_redelivers q_two q_two_pulled src_1 H)
    as (_ & _ & _ & Hq & Hall & _).
  split; [exact H|]. split; [exact Hq|].
  replace 2 with
    (length (queue (nack (event_id src_1) true q_two_pulled).2))
    by (vm_compute; reflexivity).
  exact Hall.
Defined.

Lemma nack_without_requeue_drops_witness :
  consume_next (run [OpPublish src_1; OpPublish src_2] init).2
    = Some (src_1, q_two_pulled) ∧
  ∀ y, y ∈ (run [OpConsume; OpPublish src_2; OpConsume; OpConsume]
              (nack (Some "src_1") false q_two_pulled).2).1 →
       event_id y ≠ Some "src_1".
Proof.
  assert (consume_next (run [OpPublish src_1; OpPublish src_2] init).2
          = Some (src_1, q_two_pulled)) as Hc by reflexivity.
  split; [exact Hc|].
  refine (proj2 (proj2 (proj2
    (QueueClaims.nack_without_requeue_drops
       [OpPublish src_1; OpPublish src_2] q_two_pulled src_1
       [OpConsume; OpPublish src_2; OpConsume; OpConsume] Hc _ _)))).
  - intros x Hx. cbn in Hx. apply list_elem_of_singleton in Hx as ->.
    discriminate.
  - intros x Hx.
    repeat (apply elem_of_cons in Hx as [Hx|Hx];
            [first [discriminate Hx | injection Hx as ->; discriminate]|]).
    by apply elem_of_nil in Hx.
Defined.



Lemma start_aborts_on_connect_failure_witness :
  connect_each [mail] (mkState true (event_queue (state_of []))
                         (world (state_of [])) (trace (state_of [])))
    = (Ok (), mkState true (event_queue (state_of [])) 1
                [CallConnect "mail"]) ∧
  connect broken 1
    = (Raise (ConnectionError "Failed to connect to Gmail"), 2) ∧
  start (orchestrator [mail; broken]) (state_of []) =
    (Raise (ConnectionError "Failed to connect to Gmail"),
     mkState true (event_queue (state_of [])) 2
       [CallConnect "mail"; CallConnect "broken"]).
Proof.
  assert (connect_each [mail]
            (mkState true (event_queue (state_of []))
               (world (state_of [])) (trace (state_of [])))
          = (Ok (), mkState true (event_queue (state_of [])) 1
                      [CallConnect "mail"])) as Hpre
    by (vm_compute; reflexivity).
  assert (connect broken
            (world (mkState true (event_queue (state_of [])) 1
                      [CallConnect "mail"]))
          = (Raise (ConnectionError "Failed to connect to Gmail"), 2)) as Hc
    by reflexivity.
  split; [exact Hpre|]. split; [exact Hc|].
  exact (proj1 (OrchestratorClaims.start_aborts_on_connect_failure
                  (orchestrator [mail; broken]) (state_of [])
                  [mail] [] broken _ _ _ eq_refl Hpre Hc)).
Defined.

Lemma extract_returns_well_formed_witness :
  ∃ event,
    DataExtractor.extract py "uuid-1" "2024-05-01T09:00:00"
      (normalized src_1) llm_meeting = Ok event ∧
    StructuredEvent.title event = PStr "Meeting" ∧
    DataExtractor.well_formed event.
Proof.
  eexists. split; [vm_compute; reflexivity|]. split; [reflexivity|].
  refine (proj1 (ExtractorClaims.extract_returns_well_formed
                   py "uuid-1" "2024-05-01T09:00:00"
                   (normalized src_1) llm_meeting _ _)).
  vm_compute. reflexivity.
Defined.

Lemma alert_default_15_witness :
  ∃ event,
    DataExtractor.extract py "uuid-1" "2024-05-01T09:00:00"
      (normalized src_1) (llm_alert (PStr "soon")) = Ok event ∧
    py_int py (PStr "soon")
      = Raise (ValueError "invalid literal for int() with base 10") ∧
    StructuredEvent.alert_before_minutes event = Some 15%Z.
Proof.
  eexists. split; [vm_compute; reflexivity|]. split; [reflexivity|].
  refine (proj1 (proj2 (proj2 (proj2
            (ExtractorClaims.alert_default_15
               py "uuid-1" "2024-05-01T09:00:00"
               (normalized src_1) (llm_alert (PStr "soon")) _ _))))
            (PStr "soon") "invalid literal for int() with base 10" _ _).
  - vm_compute. reflexivity.
  - vm_compute. reflexivity.
  - left. reflexivity.
Defined.

Lemma none_id_stays_in_flight_witness :
  event_id anon = None ∧
  consume_next q_anon = Some (anon, q_anon_pulled) ∧
  (process_one_try (orchestrator [mail]) anon (state_with q_anon_pulled)).1
    = Ok () ∧
  processing
    (event_queue
       (process_one (orchestrator [mail]) anon (state_with q_anon_pulled)).2)
    !! None = Some anon.
Proof.
  assert (event_id anon = None) as Hid by reflexivity.
  assert (consume_next q_anon = Some (anon, q_anon_pulled)) as Hc
    by reflexivity.
  destruct (OrchestratorClaims.none_id_stays_in_flight
              (orchestrator [mail]) anon q_anon q_anon_pulled Hid Hc)
    as (_ & _ & _ & _ & _ & Hone & _).
  split; [exact Hid|]. split; [exact Hc|].
  split; [vm_compute; reflexivity|].
  apply Hone. reflexivity.
Defined.

End Examples.

(** * Further properties of the pipeline *)

(** ** The queue *)

Module QueueExtras.
Import Queue QueueFacts QueueHistory.

Lemma ack_delete (q : t) (eid : option string) :
  ack eid q
  = (true, {| queue := queue q; processing := delete eid (processing q) |}).
Proof.
  unfold ack. destruct (processing q !! eid) as [ev|] eqn:E; [done|].
  rewrite delete_id by done. by destruct q.
Qed.

(** X1. [ack] removes exactly the entry of the given id: the backlog and
    every other in-flight entry stay, the id is no longer in flight, and
    a second [ack] of it changes nothing. *)
Theorem ack_removes_one_entry (q : t) (eid : option string) :
  (ack eid q).1 = true ∧
  queue (ack eid q).2 = queue q ∧
  processing (ack eid q).2 = delete eid (processing q) ∧
  ack eid (ack eid q).2 = (true, (ack eid q).2).
Proof.
  rewrite ack_delete. cbn. repeat split. apply ack_not_in_flight. cbn. apply lookup_delete_eq.
Qed.

(** X2. A [nack] without requeue does to the queue exactly what an [ack]
    does: the rejected event leaves no trace. *)
Theorem nack_without_requeue_is_ack (q : t) (eid : option string) :
  nack eid false q = ack eid q.
Proof. unfold nack, ack. by destruct (processing q !! eid). Qed.

(** X3. Settling a freshly consumed event whose id was not in flight
    before puts the in-flight map back as it was: after [ack] the
    backlog is the old one without its head, after [nack] with requeue
    the head has moved to the tail, so the backlog holds the same events
    as before the pull. *)
Theorem consume_then_settle (ev : RawEvent) (rest : list RawEvent)
    (pr : gmap (option string) RawEvent) (q1 : t) :
  pr !! event_id ev = None →
  consume_next {| queue := ev :: rest; processing := pr |} = Some (ev, q1) →
  ack (event_id ev) q1 = (true, {| queue := rest; processing := pr |}) ∧
  nack (event_id ev) true q1
    = (true, {| queue := rest ++ [ev]; processing := pr |}) ∧
  queue (nack (event_id ev) true q1).2 ≡ₚ ev :: rest.
Proof.
  intros Hfresh [= <-]. unfold ack, nack. cbn.
  rewrite lookup_insert_eq. cbn.
  rewrite delete_insert_id by done.
  repeat split. symmetry. apply Permutation_cons_append.
Qed.

(** X4. Two consumed events with the same id share one in-flight slot,
    which holds the later one: a [nack] with requeue brings back the
    later event only, and nothing is left to bring back the earlier
    one. *)
Theorem same_id_overwrites_in_flight (e1 e2 : RawEvent)
    (rest : list RawEvent) (pr : gmap (option string) RawEvent) (q1 q2 : t) :
  event_id e1 = event_id e2 →
  consume_next {| queue := e1 :: e2 :: rest; processing := pr |}
    = Some (e1, q1) →
  consume_next q1 = Some (e2, q2) →
  processing q2 = <[event_id e2 := e2]> pr ∧
  nack (event_id e1) true q2
    = (true, {| queue := rest ++ [e2];
                processing := delete (event_id e2) pr |}) ∧
  nack (event_id e1) true (nack (event_id e1) true q2).2
    = (true, (nack (event_id e1) true q2).2) ∧
  ack (event_id e1) (nack (event_id e1) true q2).2
    = (true, (nack (event_id e1) true q2).2).
Proof.
  intros Hid [= <-]. cbn. intros [= <-]. cbn. rewrite Hid.
  rewrite insert_insert_eq. split; [done|].
  assert (nack (event_id e2) true
            {| queue := rest; processing := <[event_id e2 := e2]> pr |}
          = (true, {| queue := rest ++ [e2];
                      processing := delete (event_id e2) pr |})) as Hn.
  { unfold nack. cbn. rewrite lookup_insert_eq. cbn.
    by rewrite delete_insert_eq. }
  rewrite Hn. cbn. split; [done|]. split.
  - apply nack_not_in_flight. cbn. apply lookup_delete_eq.
  - apply ack_not_in_flight. cbn. apply lookup_delete_eq.
Qed.

(** Where an event of the queue object can come from. *)
Lemma step_provenance (o : op) (q : t) (known : list RawEvent) :
  (∀ ev, ev ∈ queue q → ev ∈ known) →
  (∀ k ev, processing q !! k = Some ev → ev ∈ known) →
  (∀ ev, o = OpPublish ev → ev ∈ known) →
  (∀ ev, ev ∈ (step o q).1 → ev ∈ known) ∧
  (∀ ev, ev ∈ queue (step o q).2 → ev ∈ known) ∧
  (∀ k ev, processing (step o q).2 !! k = Some ev → ev ∈ known).
Proof.
  intros Hq Hp Ho. destruct o as [event| |eid|eid requeue]; cbn.
  - split; [by intros ev ?%elem_of_nil|]. split; [|done].
    intros ev [?| ->%list_elem_of_singleton]%elem_of_app; eauto.
  - destruct (consume_next q) as [[x q']|] eqn:E; cbn.
    + apply consume_next_Some in E as (rest & Hbl & Hbl' & Hpr).
      assert (x ∈ known) as Hx by (apply Hq; rewrite Hbl; left).
      split; [by intros ev ->%list_elem_of_singleton|]. split.
      * intros ev Hev. apply Hq. rewrite Hbl, <- Hbl'. by right.
      * intros k ev. rewrite Hpr, lookup_insert.
        case_decide; [by intros [= <-]|]. apply Hp.
    + split; [by intros ev ?%elem_of_nil|]. by split.
  - split; [by intros ev ?%elem_of_nil|].
    unfold ack. destruct (processing q !! eid); cbn; [|by split].
    split; [done|]. intros k ev. rewrite lookup_delete.
    case_decide; [done|]. apply Hp.
  - split; [by intros ev ?%elem_of_nil|].
    unfold nack. destruct (processing q !! eid) as [x|] eqn:E; cbn;
      [|by split].
    split.
    + destruct requeue; [|done].
      intros ev [?| ->%list_elem_of_singleton]%elem_of_app; eauto.
    + intros k ev. rewrite lookup_delete. case_decide; [done|]. apply Hp.
Qed.

Lemma run_provenance (ops : list op) (q : t) (known : list RawEvent) :
  (∀ ev, ev ∈ queue q → ev ∈ known) →
  (∀ k ev, processing q !! k = Some ev → ev ∈ known) →
  (∀ ev, ev ∈ published ops → ev ∈ known) →
  (∀ ev, ev ∈ (run ops q).1 → ev ∈ known) ∧
  (∀ ev, ev ∈ queue (run ops q).2 → ev ∈ known) ∧
  (∀ k ev, processing (run ops q).2 !! k = Some ev → ev ∈ known).
Proof.
  revert q. induction ops as [|o ops IH]; intros q Hq Hp Hpub; cbn.
  { split; [by intros ev ?%elem_of_nil|]. by split. }
  destruct (step_provenance o q known Hq Hp) as (Hy & Hq' & Hp').
  { intros ev ->. apply Hpub. cbn. left. }
  destruct (step o q) as [ys q']. cbn in *.
  destruct (IH q' Hq' Hp') as (Hz & Hq'' & Hp'').
  { intros ev Hev. apply Hpub. destruct o; cbn; try done. by right. }
  destruct (run ops q') as [zs q'']. cbn in *.
  split; [|by split].
  intros ev [?|?]%elem_of_app; eauto.
Qed.

(** X5. The queue never invents an event: whatever calls are made on a
    fresh queue, every event a pull yields, every event in the backlog
    and every event in flight was passed to [publish] by one of those
    calls, and every in-flight event sits under its own id. *)
Theorem queue_holds_published_events_only (history : list op) :
  (∀ ev, ev ∈ (run history init).1 → ev ∈ published history) ∧
  (∀ ev, ev ∈ queue (run history init).2 → ev ∈ published history) ∧
  (∀ k ev, processing (run history init).2 !! k = Some ev →
     ev ∈ published history ∧ event_id ev = k).
Proof.
  destruct (run_provenance history init (published history))
    as (Hy & Hq & Hp); try done.
  { by intros ev ?%elem_of_nil. }
  split; [done|]. split; [done|]. intros k ev Hev. split; [by eapply Hp|].
  by apply (keyed_run history init keyed_init).
Qed.

Lemma consume_all_in_flight (n : nat) (q : t) :
  processing (consume_all n q).2
  = in_flight_after (take n (queue q)) (processing q).
Proof.
  revert q. induction n as [|n IH]; intros [bl pr]; cbn; [done|].
  destruct bl as [|ev rest]; cbn; [done|].
  specialize (IH {| queue := rest; processing := <[event_id ev := ev]> pr |}).
  destruct (consume_all n _) as [evs q'']. cbn in *. by rewrite IH.
Qed.

(** X6. Pulling at most [n] events from a [consume] generator splits the
    backlog: the pulls yield its first [n] events in order (all of them
    when there are fewer), the others stay queued in order, and the
    yielded events are in flight, each under its id, the last one pulled
    winning among equal ids. *)
Theorem consume_all_splits_backlog (n : nat) (q : t) :
  (consume_all n q).1 = take n (queue q) ∧
  queue (consume_all n q).2 = drop n (queue q) ∧
  (consume_all n q).1 ++ queue (consume_all n q).2 = queue q ∧
  length (consume_all n q).1 = n `min` length (queue q) ∧
  processing (consume_all n q).2
    = in_flight_after (take n (queue q)) (processing q) ∧
  (∀ ev, last (consume_all n q).1 = Some ev →
     processing (consume_all n q).2 !! event_id ev = Some ev).
Proof.
  rewrite consume_all_yields, consume_all_backlog, consume_all_in_flight.
  split; [done|]. split; [done|]. split; [apply take_drop|].
  split; [apply length_take|]. split; [done|].
  intros ev Hlast. apply last_Some in Hlast as [pre Hpre].
  rewrite Hpre. unfold in_flight_after. rewrite foldl_app. cbn.
  apply lookup_insert_eq.
Qed.

End QueueExtras.

(** ** The orchestrator *)

Module OrchestratorExtras.
Import Orchestrator OrchestratorFacts Ingestion.

Section WithWorld.
Context {W : Type}.
Implicit Types (o : Orchestrator.t W) (s : state W) (raw : RawEvent).

(** A loop that announces and makes one outside call per item, when no
    call raises. *)
Lemma for_each_extern_ok {A} (xs : list A) (mk : A → call)
    (f : A → W → result unit * W) s :
  (∀ x, x ∈ xs → ∀ w, (f x w).1 = Ok ()) →
  ∃ w',
    for_each xs (fun x => bind (log (mk x)) (fun _ => extern (f x))) s
    = (Ok (), mkState (running s) (event_queue s) w'
                (trace s ++ map mk xs)).
Proof.
  revert s. induction xs as [|x xs IH]; intros s Hok; cbn [for_each map].
  { exists (world s). rewrite ret_run, app_nil_r. by rewrite <- state_eta. }
  rewrite bind_run, bind_run, log_run. run_step.
  rewrite extern_run. run_step.
  pose proof (Hok x ltac:(left) (world s)) as Hx.
  destruct (f x (world s)) as [r w1]. cbn in Hx. subst r. run_step.
  destruct (IH (mkState (running s) (event_queue s) w1 (trace s ++ [mk x])))
    as [w' ->].
  { intros y Hy. apply Hok. by right. }
  exists w'. cbn. by rewrite <- app_assoc.
Qed.

(** The same loop when the call for one item raises and the calls for the
    items before it do not: the loop ends there. *)
Lemma for_each_extern_raise {A} (pre post : list A) (x : A) (mk : A → call)
    (f : A → W → result unit * W) (e : pyexn) s :
  (∀ y, y ∈ pre → ∀ w, (f y w).1 = Ok ()) →
  (∀ w, (f x w).1 = Raise e) →
  ∃ w',
    for_each (pre ++ x :: post)
      (fun x => bind (log (mk x)) (fun _ => extern (f x))) s
    = (Raise e, mkState (running s) (event_queue s) w'
                  (trace s ++ map mk (pre ++ [x]))).
Proof.
  intros Hpre Hx. rewrite OrchestratorClaims.for_each_app, bind_run.
  destruct (for_each_extern_ok pre mk f s Hpre) as [w1 ->]. run_step.
  cbn [for_each]. rewrite bind_run, bind_run, log_run. run_step.
  rewrite extern_run. run_step.
  specialize (Hx w1). destruct (f x w1) as [r w2]. cbn in Hx. subst r.
  run_step. exists w2. by rewrite map_app, <- app_assoc.
Qed.

(** X7. [stop] clears the running flag before anything else and leaves
    the queue alone.  When no [disconnect] raises, every connector is
    disconnected once, in list order; when one raises, the exception
    leaves [stop] and the connectors after it stay connected. *)
Theorem stop_disconnects_in_order o s :
  running (stop o s).2 = false ∧
  event_queue (stop o s).2 = event_queue s ∧
  ((∀ c, c ∈ connectors o → ∀ w, (disconnect c w).1 = Ok ()) →
   (stop o s).1 = Ok () ∧
   trace (stop o s).2
     = trace s ++ map (fun c => CallDisconnect (conn_source_id c))
                    (connectors o)) ∧
  (∀ pre c post e,
     connectors o = pre ++ c :: post →
     (∀ c', c' ∈ pre → ∀ w, (disconnect c' w).1 = Ok ()) →
     (∀ w, (disconnect c w).1 = Raise e) →
     (stop o s).1 = Raise e ∧
     trace (stop o s).2
       = trace s ++ map (fun c => CallDisconnect (conn_source_id c))
                      (pre ++ [c])).
Proof.
  set (s0 := mkState false (event_queue s) (world s) (trace s)).
  assert (stop o s
          = for_each (connectors o)
              (fun c => bind (log (CallDisconnect (conn_source_id c)))
                          (fun _ => extern (disconnect c))) s0) as ->
    by reflexivity.
  assert (∀ (xs : list (SourceConnector W))
            (body : SourceConnector W → M W unit) r s1,
            (∀ x s', running (body x s').2 = running s' ∧
                     event_queue (body x s').2 = event_queue s') →
            for_each xs body s0 = (r, s1) →
            running s1 = false ∧ event_queue s1 = event_queue s)
    as Hframe.
  { intros xs body. generalize s0 (eq_refl : running s0 = false)
      (eq_refl : event_queue s0 = event_queue s).
    induction xs as [|x xs IH]; intros s' Hr Hq r s1 Hbody; cbn [for_each].
    { rewrite ret_run. by intros [= <- <-]. }
    rewrite bind_run. destruct (Hbody x s') as [Hr' Hq'].
    destruct (body x s') as [[[]|e] s2]; cbn in Hr', Hq'.
    - apply IH; [congruence|congruence|done].
    - intros [= <- <-]. split; congruence. }
  destruct (for_each (connectors o) _ s0) as [r s1] eqn:E.
  edestruct Hframe as [Hr Hq]; [|exact E|].
  { intros x s'. cbv beta.
    rewrite bind_run, log_run. run_step. rewrite extern_run. run_step.
    by destruct (disconnect x (world s')) as [[[]|e] w]. }
  split; [done|]. split; [done|]. split.
  - intros Hok.
    destruct (for_each_extern_ok (connectors o)
                (fun c => CallDisconnect (conn_source_id c))
                (fun c => disconnect c) s0 Hok) as [w' Heq].
    rewrite Heq in E. by injection E as <- <-.
  - intros pre c post e Hcs Hpre Hc. rewrite Hcs in E.
    destruct (for_each_extern_raise pre post c
                (fun c => CallDisconnect (conn_source_id c))
                (fun c => disconnect c) e s0 Hpre Hc) as [w' Heq].
    rewrite Heq in E. by injection E as <- <-.
Qed.

(** X8. When no [connect] raises, [start] sets the running flag, connects
    every connector once in list order, leaves the queue alone and hands
    [asyncio.gather] one ingestion loop per connector, in that order,
    followed by the processing loop. *)
Theorem start_connects_in_order o s :
  (∀ c, c ∈ connectors o → ∀ w, (connect c w).1 = Ok ()) →
  ∃ w',
    start o s
    = (Ok (map (fun c => IngestionLoop (conn_source_id c)) (connectors o)
           ++ [ProcessingLoop]),
       mkState true (event_queue s) w'
         (trace s ++ map (fun c => CallConnect (conn_source_id c))
                       (connectors o))).
Proof.
  intros Hok. unfold start. rewrite bind_run. unfold set_running at 1.
  run_step. rewrite bind_run. unfold connect_each.
  destruct (for_each_extern_ok (connectors o)
              (fun c => CallConnect (conn_source_id c))
              (fun c => connect c)
              (mkState true (event_queue s) (world s) (trace s)) Hok)
    as [w' ->].
  run_step. rewrite ret_run. by exists w'.
Qed.

(** The calls of the calendar fan-out. *)
Lemma integrate_calendar_calls o (event : StructuredEvent.t) s :
  ∃ w sinks,
    _integrate_calendar o event s
      = (Ok (), mkState (running s) (event_queue s) w (trace s ++ sinks)) ∧
    List.filter is_create_call sinks
      = map (fun p => CallCreateEvent (fst p) event "primary")
          (calendar_providers o) ∧
    forallb is_sink_call sinks = true.
Proof.
  unfold _integrate_calendar.
  match goal with |- context [for_each _ ?b] => set (body := b) end.
  assert (∀ item s', ∃ w calls,
            body item s' =
              (Ok (), mkState (running s') (event_queue s') w
                        (trace s' ++ calls)) ∧
            List.filter is_create_call calls
              = [CallCreateEvent (fst item) event "primary"] ∧
            forallb is_sink_call calls = true) as Hbody.
  { intros [name p] s'. subst body. cbn.
    unfold try_except, bind, log, extern. cbn.
    destruct (create_event p event "primary" (world s')) as [[[]|e] w1]; cbn.
    - by exists w1, [CallCreateEvent name event "primary"].
    - exists w1, [CallCreateEvent name event "primary";
                  CallPrint "Error integrating with " e].
      by rewrite <- app_assoc. }
  clearbody body. generalize (calendar_providers o). intros ps.
  revert s. induction ps as [|item ps IH]; intros s; cbn [for_each map].
  { exists (world s), []. rewrite app_nil_r, ret_run.
    by rewrite <- state_eta. }
  rewrite bind_run.
  destruct (Hbody item s) as (w1 & calls & -> & Hc & Hs). run_step.
  destruct (IH (mkState (running s) (event_queue s) w1 (trace s ++ calls)))
    as (w & sinks & -> & Hc' & Hs'). cbn.
  exists w, (calls ++ sinks). rewrite <- app_assoc. split; [done|].
  rewrite List.filter_app, forallb_app, Hc, Hc', Hs, Hs'. done.
Qed.

(** The [try] block of the loop body when extraction succeeds, with the
    calendar calls spelled out. *)
Lemma process_one_try_calls o raw s (event : StructuredEvent.t) (w1 : W) :
  process_event o raw (world s) = (Ok event, w1) →
  let id := or_empty (event_id raw) in
  ∃ w2 sinks,
    List.filter is_create_call sinks
      = map (fun p => CallCreateEvent (fst p) event "primary")
          (calendar_providers o) ∧
    forallb is_sink_call sinks = true ∧
    match connector_map o !! source_id raw with
    | None =>
        process_one_try o raw s =
          (Ok (), mkState (running s)
                    (Queue.ack (Some id) (event_queue s)).2 w2
                    (trace s ++ [CallProcessEvent raw] ++ sinks ++
                     [CallAck id]))
    | Some c =>
        match mark_as_processed c raw w2 with
        | (Ok _, w3) =>
            process_one_try o raw s =
              (Ok (), mkState (running s)
                        (Queue.ack (Some id) (event_queue s)).2 w3
                        (trace s ++ [CallProcessEvent raw] ++ sinks ++
                         [CallMarkAsProcessed (conn_source_id c) raw;
                          CallAck id]))
        | (Raise e, w3) =>
            process_one_try o raw s =
              (Raise e, mkState (running s) (event_queue s) w3
                          (trace s ++ [CallProcessEvent raw] ++ sinks ++
                           [CallMarkAsProcessed (conn_source_id c) raw]))
        end
    end.
Proof.
  intros Hp. cbn zeta. unfold process_one_try.
  rewrite bind_run, log_run. run_step.
  rewrite bind_run, extern_run. run_step. rewrite Hp. run_step.
  rewrite bind_run.
  match goal with |- context [_integrate_calendar o event ?s1] =>
    destruct (integrate_calendar_calls o event s1)
      as (w2 & sinks & -> & Hc & Hs)
  end. run_step.
  exists w2, sinks. split; [done|]. split; [done|].
  unfold _send_notifications. rewrite bind_run, ret_run. run_step.
  rewrite bind_run.
  destruct (connector_map o !! source_id raw) as [c|].
  - rewrite bind_run, log_run. run_step.
    rewrite bind_run, extern_run. run_step.
    destruct (mark_as_processed c raw w2) as [[b|e] w3]; run_step.
    + rewrite ret_run, bind_run, log_run. run_step.
      rewrite bind_run, on_queue_run. run_step.
      rewrite ret_run. by rewrite <- !app_assoc.
    + by rewrite <- !app_assoc.
  - rewrite ret_run, bind_run, log_run. run_step.
    rewrite bind_run, on_queue_run. run_step.
    rewrite ret_run. by rewrite <- !app_assoc.
Qed.

(** Sink calls are of no other kind. *)
Lemma sink_calls_filter (kind : call → bool) (sinks : list call) :
  (∀ c, is_sink_call c = true → kind c = false) →
  forallb is_sink_call sinks = true →
  List.filter kind sinks = [].
Proof.
  intros Hkind. induction sinks as [|c cs IH]; [done|]. cbn.
  intros [Hc Hcs]%andb_prop. rewrite (Hkind c Hc). by apply IH.
Qed.

(** X9. The calendar fan-out calls [create_event] on every provider once,
    in the order of the provider dict and with the calendar id
    ["primary"], whether or not earlier providers raised; it never
    raises itself and leaves the queue alone. *)
Theorem every_calendar_is_called o (event : StructuredEvent.t) s :
  ∃ w sinks,
    _integrate_calendar o event s
      = (Ok (), mkState (running s) (event_queue s) w (trace s ++ sinks)) ∧
    List.filter is_create_call sinks
      = map (fun p => CallCreateEvent (fst p) event "primary")
          (calendar_providers o) ∧
    forallb is_sink_call sinks = true.
Proof.
  destruct (integrate_calendar_calls o event s) as (w & sinks & Heq & Hc & Hs).
  exists w, sinks. split; [exact Heq|]. by split.
Qed.

(** X10. The registry of connectors answers for exactly the source ids
    of the configured connectors, with a configured connector of that
    id. *)
Theorem connector_map_registry o (k : string) :
  (connector_map o !! k = None ↔
   ∀ c, c ∈ connectors o → conn_source_id c ≠ k) ∧
  (∀ c, connector_map o !! k = Some c →
     c ∈ connectors o ∧ conn_source_id c = k).
Proof.
  split.
  - unfold connector_map. generalize (connectors o). intros cs.
    induction cs as [|x cs IH] using rev_ind; cbn.
    { rewrite lookup_empty. split; [|done]. by intros _ c ?%elem_of_nil. }
    rewrite foldl_app. cbn. rewrite lookup_insert. case_decide as Hx.
    + split; [done|]. intros H. exfalso. apply (H x); [|done].
      apply elem_of_app. right. by left.
    + rewrite IH. split.
      * intros H c [?| ->%list_elem_of_singleton]%elem_of_app; eauto.
      * intros H c Hc. apply H. apply elem_of_app. by left.
  - intros c Hc. destruct (connector_map_lookup o k c Hc). by split.
Qed.

(** X11. When extraction succeeds and every calendar has been called but
    [mark_as_processed] raises, the loop body rejects the event with
    requeue and makes no [ack]: an event that was in flight under its id
    goes back to the tail of the backlog, from where a later round runs
    extraction and the calendar calls for it again. *)
Theorem mark_failure_requeues_after_sinks o raw s
    (event : StructuredEvent.t) (w1 : W) (c : SourceConnector W)
    (e : pyexn) :
  process_event o raw (world s) = (Ok event, w1) →
  connector_map o !! source_id raw = Some c →
  (∀ w, (mark_as_processed c raw w).1 = Raise e) →
  let id := or_empty (event_id raw) in
  ∃ w' sinks,
    process_one o raw s
      = (Ok (), mkState (running s)
                  (Queue.nack (Some id) true (event_queue s)).2 w'
                  (trace s ++ [CallProcessEvent raw] ++ sinks ++
                   [CallMarkAsProcessed (conn_source_id c) raw;
                    CallPrint "Error processing event: " e;
                    CallNack id true])) ∧
    List.filter is_create_call sinks
      = map (fun p => CallCreateEvent (fst p) event "primary")
          (calendar_providers o) ∧
    List.filter is_ack_call sinks = [] ∧
    (∀ i, event_id raw = Some i →
       Queue.processing (event_queue s) !! Some i = Some raw →
       Queue.queue (Queue.nack (Some id) true (event_queue s)).2
         = Queue.queue (event_queue s) ++ [raw]).
Proof.
  intros Hp Hc Hm. cbn zeta.
  destruct (process_one_try_calls o raw s event w1 Hp)
    as (w2 & sinks & Hcreate & Hs & H).
  rewrite Hc in H. specialize (Hm w2).
  destruct (mark_as_processed c raw w2) as [r w3]. cbn in Hm. subst r.
  unfold process_one. rewrite try_except_run, H. run_step.
  rewrite process_one_except_spec. run_step.
  exists w3, sinks. split; [by rewrite <- !app_assoc|].
  split; [done|]. split; [by apply sink_calls_filter; [intros []|]|].
  intros i Hi Hin. rewrite Hi, or_empty_Some. unfold Queue.nack.
  by rewrite Hin.
Qed.

(** X12. An event whose source id no configured connector carries is
    acknowledged without any [mark_as_processed] call, once extraction
    has succeeded and the calendars have been called. *)
Theorem unknown_source_is_acked_unmarked o raw s
    (event : StructuredEvent.t) (w1 : W) :
  process_event o raw (world s) = (Ok event, w1) →
  (∀ c, c ∈ connectors o → conn_source_id c ≠ source_id raw) →
  let id := or_empty (event_id raw) in
  ∃ w' sinks,
    process_one o raw s
      = (Ok (), mkState (running s)
                  (Queue.ack (Some id) (event_queue s)).2 w'
                  (trace s ++ [CallProcessEvent raw] ++ sinks ++
                   [CallAck id])) ∧
    List.filter is_create_call sinks
      = map (fun p => CallCreateEvent (fst p) event "primary")
          (calendar_providers o) ∧
    count_calls is_mark_call
      ([CallProcessEvent raw] ++ sinks ++ [CallAck id]) = 0.
Proof.
  intros Hp Hnone. cbn zeta.
  assert (connector_map o !! source_id raw = None) as Hc.
  { destruct (connector_map o !! source_id raw) as [c|] eqn:E; [|done].
    destruct (connector_map_lookup o _ _ E) as [Hid Hin].
    by destruct (Hnone c Hin). }
  destruct (process_one_try_calls o raw s event w1 Hp)
    as (w2 & sinks & Hcreate & Hs & H).
  rewrite Hc in H.
  unfold process_one. rewrite try_except_run, H. run_step.
  exists w2, sinks. split; [done|]. split; [done|].
  unfold count_calls. rewrite !List.filter_app.
  rewrite (sink_calls_filter is_mark_call sinks); [done| by intros [] |done].
Qed.

(** X13. With the running flag down the processing loop returns at once
    and pulls nothing, whatever is queued; with the flag up and an empty
    backlog every iteration finds the generator exhausted and makes no
    call at all, not even a sleep, before the next iteration polls
    again. *)
Theorem idle_processing_loop o (rounds fuel : nat) s :
  (running s = false → _processing_loop o rounds fuel s = (Ok (), s)) ∧
  (Queue.queue (event_queue s) = [] →
   _processing_loop o rounds fuel s = (Ok (), s)).
Proof.
  split.
  - intros Hr. destruct rounds; cbn [_processing_loop]; [done|].
    by rewrite Hr.
  - intros Hq. induction rounds as [|r IH]; cbn [_processing_loop]; [done|].
    destruct (running s); [|done].
    rewrite bind_run, try_except_run, bind_run.
    assert (consume_loop o fuel s = (Ok (match fuel with O => false
                                         | S _ => true end), s)) as ->.
    { destruct fuel; cbn [consume_loop]; [done|].
      unfold Queue.consume_next. by rewrite Hq. }
    run_step. rewrite ret_run. run_step. exact IH.
Qed.


(** One pull of the [async for] on a backlog that is not empty. *)
Lemma consume_loop_cons o (n : nat) s raw (rest : list RawEvent) :
  Queue.queue (event_queue s) = raw :: rest →
  consume_loop o (S n) s
  = bind (process_one o raw) (fun _ => consume_loop o n)
      (mkState (running s)
         {| Queue.queue := rest;
            Queue.processing :=
              <[event_id raw := raw]> (Queue.processing (event_queue s)) |}
         (world s) (trace s)).
Proof.
  intros Hq. cbn [consume_loop]. unfold Queue.consume_next. by rewrite Hq.
Qed.

(** The loop body when nothing fails. *)
Lemma process_one_success o raw s :
  (∀ r w, ∃ event w', process_event o r w = (Ok event, w')) →
  (∀ c, c ∈ connectors o → ∀ r w, ∃ b w',
     mark_as_processed c r w = (Ok b, w')) →
  ∃ w' calls,
    process_one o raw s
      = (Ok (), mkState (running s)
                  (Queue.ack (Some (or_empty (event_id raw)))
                     (event_queue s)).2 w'
                  (trace s ++ calls)) ∧
    List.filter is_process_call calls = [CallProcessEvent raw] ∧
    List.filter is_ack_call calls = [CallAck (or_empty (event_id raw))] ∧
    List.filter is_nack_call calls = [].
Proof.
  intros Hp Hm. destruct (Hp raw (world s)) as (event & w1 & Hev).
  destruct (process_one_try_calls o raw s event w1 Hev)
    as (w2 & sinks & _ & Hs & H). cbn zeta in H.
  unfold process_one. rewrite try_except_run.
  pose proof (sink_calls_filter is_process_call sinks
                ltac:(by intros []) Hs) as H1.
  pose proof (sink_calls_filter is_ack_call sinks
                ltac:(by intros []) Hs) as H2.
  pose proof (sink_calls_filter is_nack_call sinks
                ltac:(by intros []) Hs) as H3.
  destruct (connector_map o !! source_id raw) as [c|] eqn:Hc.
  - destruct (connector_map_lookup o _ _ Hc) as [_ Hin].
    destruct (Hm c Hin raw w2) as (b & w3 & Hmark). rewrite Hmark in H.
    rewrite H. run_step. eexists _, _. split; [reflexivity|].
    rewrite !List.filter_app, H1, H2, H3. done.
  - rewrite H. run_step. eexists _, _. split; [reflexivity|].
    rewrite !List.filter_app, H1, H2, H3. done.
Qed.

(** X15. When extraction and [mark_as_processed] never raise, one pass of
    the [async for] drains the backlog: the generator finishes, the
    events were extracted in the order they were queued, each was
    acknowledged once and none rejected; and when every event has an id
    and nothing was in flight before, nothing is in flight after. *)
Theorem clean_pass_drains_backlog o s :
  (∀ r w, ∃ event w', process_event o r w = (Ok event, w')) →
  (∀ c, c ∈ connectors o → ∀ r w, ∃ b w',
     mark_as_processed c r w = (Ok b, w')) →
  ∃ s' calls,
    consume_loop o (S (length (Queue.queue (event_queue s)))) s
      = (Ok true, s') ∧
    Queue.queue (event_queue s') = [] ∧
    trace s' = trace s ++ calls ∧
    List.filter is_process_call calls
      = map CallProcessEvent (Queue.queue (event_queue s)) ∧
    List.filter is_ack_call calls
      = map (fun r => CallAck (or_empty (event_id r)))
          (Queue.queue (event_queue s)) ∧
    List.filter is_nack_call calls = [] ∧
    (Queue.processing (event_queue s) = ∅ →
     (∀ r, r ∈ Queue.queue (event_queue s) → event_id r ≠ None) →
     Queue.processing (event_queue s') = ∅).
Proof.
  intros Hp Hm.
  remember (Queue.queue (event_queue s)) as backlog eqn:Hb.
  revert s Hb. induction backlog as [|raw rest IH]; intros s Hb.
  { exists s, []. cbn [length consume_loop]. unfold Queue.consume_next.
    rewrite <- Hb, app_nil_r. done. }
  cbn [length]. rewrite (consume_loop_cons o _ s raw rest (eq_sym Hb)).
  rewrite bind_run.
  match goal with |- context [process_one o raw ?s1] =>
    destruct (process_one_success o raw s1 Hp Hm)
      as (w' & calls & -> & H1 & H2 & H3) end.
  run_step. rewrite QueueExtras.ack_delete. cbn [snd Queue.queue].
  match goal with |- context [consume_loop o _ ?s2] =>
    destruct (IH s2 eq_refl)
      as (s' & calls' & -> & Hq & Ht & H1' & H2' & H3' & Hfl)
  end.
  cbn [trace] in Ht.
  exists s', (calls ++ calls'). split; [done|]. split; [done|].
  split; [by rewrite Ht, <- app_assoc|].
  rewrite !List.filter_app, H1, H2, H3, H1', H2', H3'. cbn [map app].
  split; [done|]. split; [done|]. split; [done|].
  intros Hempty Hids. apply Hfl.
  - cbn [event_queue Queue.processing]. rewrite Hempty.
    destruct (event_id raw) as [i|] eqn:Hi.
    + rewrite or_empty_Some. rewrite delete_insert_id; [done|].
      apply lookup_empty.
    + destruct (Hids raw); [left|done].
  - intros r Hr. apply Hids. by right.
Qed.

(** What [fetch_and_publish] does to the backlog. *)
Lemma publish_each (evs : list RawEvent) s :
  for_each evs
    (fun event => bind (on_queue (Queue.publish event)) (fun _ => ret ())) s
  = (Ok (),
     mkState (running s)
       {| Queue.queue := Queue.queue (event_queue s) ++ evs;
          Queue.processing := Queue.processing (event_queue s) |}
       (world s) (trace s)).
Proof.
  revert s. induction evs as [|ev evs IH]; intros s; cbn [for_each].
  { rewrite ret_run, app_nil_r. by destruct s as [? [] ? ?]. }
  rewrite bind_run, bind_run, on_queue_run. run_step. rewrite ret_run.
  run_step. rewrite IH. cbn. by rewrite <- app_assoc.
Qed.

(** One round of the ingestion loop, run from a given state. *)
Lemma ingestion_round_step (c : FetchingConnector W) s
    (evs : list RawEvent) (exn : option pyexn) (w : W) :
  fetch_events c (world s) = (evs, exn, w) →
  ingestion_round c s
  = (Ok (),
     mkState (running s)
       {| Queue.queue := Queue.queue (event_queue s) ++ evs;
          Queue.processing := Queue.processing (event_queue s) |}
       w
       (trace s ++
        match exn with
        | Some e =>
            [CallPrint (String.append "Error in ingestion loop for "
                          (conn_source_id (connector c))) e;
             CallSleep 5]
        | None => []
        end)).
Proof.
  intros Hf. unfold ingestion_round, fetch_and_publish.
  rewrite try_except_run, bind_run, extern_run. run_step.
  rewrite Hf. run_step. rewrite bind_run, publish_each. run_step.
  destruct exn as [e|]; run_step.
  - unfold raise. run_step. rewrite bind_run, log_run. run_step.
    rewrite log_run. run_step. by rewrite <- app_assoc.
  - rewrite ret_run. run_step. by rewrite app_nil_r.
Qed.

(** X16. One round of the ingestion loop never raises and never touches
    the in-flight map: the events the connector yielded are appended to
    the backlog in the order yielded, also those yielded ahead of a
    raise; a raise is reported and followed by a sleep of 5 seconds, a
    normal end by no call at all. *)
Theorem ingestion_round_publishes (c : FetchingConnector W) s
    (evs : list RawEvent) (exn : option pyexn) (w : W) :
  fetch_events c (world s) = (evs, exn, w) →
  ingestion_round c s
  = (Ok (),
     mkState (running s)
       {| Queue.queue := Queue.queue (event_queue s) ++ evs;
          Queue.processing := Queue.processing (event_queue s) |}
       w
       (trace s ++
        match exn with
        | Some e =>
            [CallPrint (String.append "Error in ingestion loop for "
                          (conn_source_id (connector c))) e;
             CallSleep 5]
        | None => []
        end)).
Proof.
  intros Hf. rewrite (ingestion_round_step c s evs exn w Hf).
  by destruct exn.
Qed.

(** X17. The ingestion loop does not remember what it published and does
    not pause after a fetch that ended normally: a connector that keeps
    yielding the same events has them queued once per round, with no
    call in between. *)
Theorem ingestion_republishes_every_round (c : FetchingConnector W)
    (evs : list RawEvent) (n : nat) s :
  (∀ w, ∃ w', fetch_events c w = (evs, None, w')) →
  running s = true →
  ∃ w',
    _ingestion_loop c n s
    = (Ok (),
       mkState true
         {| Queue.queue :=
              Queue.queue (event_queue s) ++ concat (replicate n evs);
            Queue.processing := Queue.processing (event_queue s) |}
         w' (trace s)).
Proof.
  intros Hf. revert s. induction n as [|n IH]; intros s Hr.
  { exists (world s). cbn. rewrite ret_run, app_nil_r.
    destruct s as [? [] ? ?]. cbn in Hr. by rewrite Hr. }
  cbn [_ingestion_loop]. rewrite Hr, bind_run.
  destruct (Hf (world s)) as [w1 Hw].
  rewrite (ingestion_round_step c s evs None w1 Hw). run_step.
  rewrite Hr.
  match goal with |- context [_ingestion_loop c n ?s1] =>
    destruct (IH s1 eq_refl) as [w' ->] end.
  exists w'. cbn. by rewrite app_nil_r, <- app_assoc.
Qed.

End WithWorld.
End OrchestratorExtras.

(** ** The extractor *)

Module ExtractorExtras.
Import DataExtractor Outcome.

Section WithBuiltins.
Context (py : PyBuiltins) (uuid now : string).
Implicit Types (normalized_event llm_result : gmap string pyval).

(** [extract], step by step. *)
Lemma extract_unfold normalized_event llm_result :
  extract py uuid now normalized_event llm_result =
  match parse_alert_before py (dict_get llm_result "alert_before_minutes") with
  | Raise e => Raise e
  | Ok alert_before =>
      match build_metadata now normalized_event with
      | Raise e => Raise e
      | Ok metadata =>
          let structured :=
            StructuredEvent.new uuid
              (dict_get_default llm_result "event_type" (PStr "unknown"))
              (dict_get_default llm_result "title" (PStr "Untitled Event"))
              (dict_get llm_result "description")
              (_parse_datetime py (dict_get llm_result "due_date"))
              (_parse_datetime py (dict_get llm_result "start_time"))
              (_parse_datetime py (dict_get llm_result "end_time"))
              (dict_get_default llm_result "participants" (PList []))
              (dict_get llm_result "location")
              (dict_get llm_result "priority")
              (dict_get normalized_event "source_id")
              metadata alert_before
              (dict_get_default llm_result "is_recurring" (PBool false))
              (dict_get llm_result "recurrence_pattern") in
          match _validate structured with
          | Raise e => Raise e
          | Ok _ => Ok structured
          end
      end
  end.
Proof. reflexivity. Qed.

(** X18. An infinite float as [alert_before_minutes] is not covered by
    the [except (ValueError, TypeError)] around [int]: whatever else the
    extraction result holds, [extract] raises [OverflowError]. *)
Theorem infinite_alert_raises_overflow normalized_event llm_result
    (sign : bool) :
  llm_result !! "alert_before_minutes" = Some (PFloat (S754_infinity sign)) →
  extract py uuid now normalized_event llm_result
  = Raise (OverflowError "cannot convert float infinity to integer").
Proof.
  intros H. rewrite extract_unfold. unfold dict_get at 1. by rewrite H.
Qed.

(** X19. A missing [title] key is replaced by ["Untitled Event"], but a
    key that is present with an empty value ([None], the empty string,
    zero, an empty list) is not: [extract] then raises, with the
    [ValueError] of [_validate] when nothing before it raised. *)
Theorem title_default_and_requirement normalized_event llm_result :
  (llm_result !! "title" = None →
   ∀ event, extract py uuid now normalized_event llm_result = Ok event →
     StructuredEvent.title event = PStr "Untitled Event") ∧
  (∀ v, llm_result !! "title" = Some v → py_truthy v = false →
     ¬ returns (extract py uuid now normalized_event llm_result) ∧
     (returns (parse_alert_before py
                 (dict_get llm_result "alert_before_minutes")) →
      returns (build_metadata now normalized_event) →
      extract py uuid now normalized_event llm_result
      = Raise (ValueError "Event title is required"))).
Proof.
  split.
  - intros Ht event. rewrite extract_unfold.
    destruct (parse_alert_before _ _) as [a|]; [|done].
    destruct (build_metadata _ _) as [m|]; [|done]. cbn zeta.
    destruct (_validate _); [|done]. intros [= <-]. cbn.
    unfold dict_get_default. by rewrite Ht.
  - intros v Ht Hv.
    assert (∀ a m, _validate
              (StructuredEvent.new uuid
                 (dict_get_default llm_result "event_type" (PStr "unknown"))
                 (dict_get_default llm_result "title" (PStr "Untitled Event"))
                 (dict_get llm_result "description")
                 (_parse_datetime py (dict_get llm_result "due_date"))
                 (_parse_datetime py (dict_get llm_result "start_time"))
                 (_parse_datetime py (dict_get llm_result "end_time"))
                 (dict_get_default llm_result "participants" (PList []))
                 (dict_get llm_result "location")
                 (dict_get llm_result "priority")
                 (dict_get normalized_event "source_id")
                 m a
                 (dict_get_default llm_result "is_recurring" (PBool false))
                 (dict_get llm_result "recurrence_pattern"))
            = Raise (ValueError "Event title is required")) as Hval.
    { intros a m. unfold _validate. cbn. unfold dict_get_default.
      rewrite Ht. cbn. by rewrite Hv. }
    rewrite extract_unfold. split.
    + intros [event H].
      destruct (parse_alert_before _ _) as [a|]; [|done].
      destruct (build_metadata _ _) as [m|]; [|done]. cbn zeta in H.
      by rewrite Hval in H.
    + intros [a ->] [m ->]. cbn zeta. by rewrite Hval.
Qed.

(** X20. When both [start_time] and [end_time] parse, [extract] returns
    only if they are of the same kind and the start lies strictly before
    the end.  With nothing raised earlier and a title present, an end at
    or before the start gives the [ValueError] of [_validate], and a
    naive value against an aware one the [TypeError] of the
    comparison. *)
Theorem time_window_is_enforced normalized_event llm_result
    (st en : datetime) :
  _parse_datetime py (dict_get llm_result "start_time") = Some st →
  _parse_datetime py (dict_get llm_result "end_time") = Some en →
  (returns (extract py uuid now normalized_event llm_result) →
   aware st = aware en ∧ (instant st < instant en)%Z) ∧
  (returns (parse_alert_before py
              (dict_get llm_result "alert_before_minutes")) →
   returns (build_metadata now normalized_event) →
   py_truthy (dict_get_default llm_result "title" (PStr "Untitled Event"))
     = true →
   (aware st = aware en → (instant en <= instant st)%Z →
    extract py uuid now normalized_event llm_result
    = Raise (ValueError "Start time must be before end time")) ∧
   (aware st ≠ aware en →
    extract py uuid now normalized_event llm_result
    = Raise (TypeError
               "can't compare offset-naive and offset-aware datetimes"))).
Proof.
  intros Hst Hen. split.
  - intros [event H].
    destruct (ExtractorClaims.extract_Ok _ _ _ _ _ _ H) as (a & _ & _ & Hv).
    apply ExtractorClaims.validate_well_formed in Hv as (_ & _ & Hw).
    rewrite extract_unfold in H.
    destruct (parse_alert_before _ _) as [a'|]; [|done].
    destruct (build_metadata _ _) as [m|]; [|done]. cbn zeta in H.
    destruct (_validate _); [|done]. injection H as <-.
    apply Hw; cbn; done.
  - intros [a Ha] [m Hm] Ht. rewrite extract_unfold, Ha, Hm. cbn zeta.
    unfold _validate. cbn. rewrite Ht, Hst, Hen. cbn.
    unfold datetime_ge. split.
    + intros -> Hle. rewrite Bool.eqb_reflx.
      apply Z.leb_le in Hle. by rewrite Hle.
    + intros Hne. destruct (Bool.eqb (aware st) (aware en)) eqn:E; [|done].
      by apply Bool.eqb_prop in E.
Qed.

(** X21. [extract] returns exactly when the alert value is absent or
    acceptable to the conversion, the normalized metadata is a mapping
    or missing, the title is not empty, and the parsed start and end,
    when both are there, are ordered. *)
Theorem extract_returns_iff normalized_event llm_result :
  returns (extract py uuid now normalized_event llm_result) ↔
  returns (parse_alert_before py
             (dict_get llm_result "alert_before_minutes")) ∧
  returns (build_metadata now normalized_event) ∧
  py_truthy (dict_get_default llm_result "title" (PStr "Untitled Event"))
    = true ∧
  (∀ st en,
     _parse_datetime py (dict_get llm_result "start_time") = Some st →
     _parse_datetime py (dict_get llm_result "end_time") = Some en →
     aware st = aware en ∧ (instant st < instant en)%Z).
Proof.
  rewrite extract_unfold. split.
  - intros [event H].
    destruct (parse_alert_before _ _) as [a|]; [|done].
    destruct (build_metadata _ _) as [m|]; [|done]. cbn zeta in H.
    destruct (_validate _) as [[]|] eqn:Hv; [|done].
    apply ExtractorClaims.validate_well_formed in Hv as (Ht & _ & Hw).
    split; [by eexists|]. split; [by eexists|]. split; [exact Ht|].
    intros st en Hst Hen. apply Hw; cbn; done.
  - intros ([a ->] & [m ->] & Ht & Hw). cbn zeta.
    match goal with |- context [_validate ?ev] =>
      assert (_validate ev = Ok ()) as -> end.
    { apply ExtractorClaims.validate_well_formed. split; [exact Ht|].
      split; [intros s' Hs'; apply ExtractorClaims.py_truthy_str;
              cbn in Hs'; by rewrite <- Hs'|].
      intros st en Hst Hen. by apply Hw. }
    by eexists.
Qed.

Lemma extracted_event_fields_helper normalized_event llm_result
    (event : StructuredEvent.t) :
  extract py uuid now normalized_event llm_result = Ok event →
  uuid = StructuredEvent.event_id event.
Proof.
  rewrite extract_unfold.
  destruct (parse_alert_before _ _) as [a|]; [|done].
  destruct (build_metadata _ _) as [m|]; [|done]. cbn zeta.
  destruct (_validate _); [|done]. by intros [= <-].
Qed.

(** X22. What a returned event carries: the drawn uuid as its id, the
    normalized [source_id] as its reference, each time field as
    [_parse_datetime] gives it (so a value that is neither text nor a
    datetime, or text the parser rejects, becomes [None]), a list for a
    missing or [None] participants value, and as metadata the normalized
    event's metadata, every entry kept, completed by [llm_extracted] and
    [extraction_timestamp] where it does not define them itself. *)
Theorem extracted_event_fields normalized_event llm_result
    (event : StructuredEvent.t) :
  extract py uuid now normalized_event llm_result = Ok event →
  StructuredEvent.event_id event = uuid ∧
  StructuredEvent.source_reference event
    = dict_get normalized_event "source_id" ∧
  StructuredEvent.start_time event
    = _parse_datetime py (dict_get llm_result "start_time") ∧
  StructuredEvent.end_time event
    = _parse_datetime py (dict_get llm_result "end_time") ∧
  StructuredEvent.due_date event
    = _parse_datetime py (dict_get llm_result "due_date") ∧
  (dict_get llm_result "participants" = PNone →
   StructuredEvent.participants event = PList []) ∧
  ∃ m md,
    dict_get_default normalized_event "metadata" (PDict ∅) = PDict m ∧
    StructuredEvent.metadata event = PDict md ∧
    (∀ k v, m !! k = Some v → md !! k = Some v) ∧
    (m !! "llm_extracted" = None →
     md !! "llm_extracted" = Some (PBool true)) ∧
    (m !! "extraction_timestamp" = None →
     md !! "extraction_timestamp" = Some (PStr now)) ∧
    (∀ k, k ≠ "llm_extracted" → k ≠ "extraction_timestamp" →
       md !! k = m !! k).
Proof.
  rewrite extract_unfold.
  destruct (parse_alert_before _ _) as [a|]; [|done].
  unfold build_metadata.
  destruct (dict_get_default normalized_event "metadata" (PDict ∅))
    as [| | | | | |m|] eqn:Hm; try done.
  cbn zeta. destruct (_validate _); [|done]. intros [= <-]. cbn.
  repeat split.
  - unfold dict_get, dict_get_default.
    destruct (llm_result !! "participants") as [v|]; cbn; [|done].
    by intros ->.
  - eexists m, _. split; [done|]. split; [done|]. split; [|split; [|split]].
    + intros k v Hk. by apply lookup_union_Some_l.
    + intros Hk. rewrite lookup_union_r by done.
      rewrite lookup_insert_ne by done. apply lookup_insert_eq.
    + intros Hk. rewrite lookup_union_r by done. apply lookup_insert_eq.
    + intros k Hk1 Hk2. destruct (m !! k) as [v|] eqn:Hk.
      * by apply lookup_union_Some_l.
      * rewrite lookup_union_r by done.
        rewrite !lookup_insert_ne by done. apply lookup_empty.
Qed.

End WithBuiltins.
End ExtractorExtras.

(** ** The normalizer *)

Module NormalizerExtras.
Import Normalizer.

Lemma append_nil_l (s : string) : String.append "" s = s.
Proof. reflexivity. Qed.

Lemma append_cons (a : Ascii.ascii) (p s : string) :
  String.append (String a p) s = String a (String.append p s).
Proof. reflexivity. Qed.

Lemma prefix_spec (p s : string) :
  String.prefix p s = true ↔ ∃ post, s = String.append p post.
Proof.
  revert s. induction p as [|a p IH]; intros s.
  { split; [intros _; by exists s|]. intros _. by destruct s. }
  destruct s as [|b s].
  { split; [done|]. intros [post H]. by rewrite append_cons in H. }
  change (String.prefix (String a p) (String b s))
    with (if Ascii.ascii_dec a b then String.prefix p s else false).
  destruct (Ascii.ascii_dec a b) as [->|Hne].
  - rewrite IH. split; intros [post H]; exists post.
    + by rewrite append_cons, H.
    + rewrite append_cons in H. congruence.
  - split; [done|]. intros [post H]. rewrite append_cons in H. congruence.
Qed.

(** [contains] is containment of text. *)
Lemma contains_spec (needle hay : string) :
  contains needle hay = true ↔
  ∃ pre post, hay = String.append pre (String.append needle post).
Proof.
  induction hay as [|b hay IH]; cbn [contains].
  - rewrite orb_false_r, prefix_spec. split.
    + intros [post H]. by exists "", post.
    + intros (pre & post & H). destruct pre as [|a pre].
      * by exists post.
      * by rewrite append_cons in H.
  - rewrite orb_true_iff, prefix_spec, IH. split.
    + intros [[post H]|(pre & post & H)].
      * by exists "", post.
      * exists (String b pre), post. by rewrite append_cons, H.
    + intros (pre & post & H). destruct pre as [|a pre].
      * left. by exists post.
      * right. rewrite append_cons in H. injection H as -> H.
        by exists pre, post.
Qed.

(** X23. A sender counts as a school exactly when its address contains
    one of the ten indicator texts anywhere; the two-letter indicator
    ["sp"] alone is enough. *)
Theorem school_sender_by_substring (from_email : string) :
  (_is_school_sender from_email = true ↔
   ∃ indicator pre post,
     indicator ∈ school_indicators ∧
     from_email = String.append pre (String.append indicator post)) ∧
  (∀ pre post,
     _is_school_sender (String.append pre (String.append "sp" post)) = true).
Proof.
  assert (∀ f, _is_school_sender f = true ↔
               ∃ indicator pre post,
                 indicator ∈ school_indicators ∧
                 f = String.append pre (String.append indicator post)) as H.
  { intros f. unfold _is_school_sender. rewrite existsb_exists. split.
    - intros (ind & Hin & (pre & post & ->)%contains_spec).
      exists ind, pre, post. by rewrite list_elem_of_In.
    - intros (ind & pre & post & Hin & ->). exists ind.
      rewrite <- list_elem_of_In. split; [done|].
      apply contains_spec. by exists pre, post. }
  split; [apply H|]. intros pre post. apply H.
  exists "sp", pre, post. split; [|done].
  apply list_elem_of_In. cbn. tauto.
Qed.

Section WithText.
Context (t : PyText).

(** X24. The content handed to the LLM is the value of the first of
    [body], [content], [text], [message], [description] that the payload
    has, text being taken as it is, whatever the later fields hold; a
    payload with none of the five is rendered as a whole. *)
Theorem extract_content_priority (payload : gmap string pyval) :
  (∀ field v,
     List.find (fun f => bool_decide (is_Some (payload !! f))) content_fields
       = Some field →
     payload !! field = Some v →
     _extract_content t payload = to_str t v) ∧
  (∀ s, payload !! "body" = Some (PStr s) → _extract_content t payload = s) ∧
  (∀ s, payload !! "body" = None → payload !! "content" = Some (PStr s) →
     _extract_content t payload = s) ∧
  ((∀ field, field ∈ content_fields → payload !! field = None) →
   _extract_content t payload = py_str t (PDict payload)).
Proof.
  unfold _extract_content. split; [|split; [|split]].
  - intros field v -> Hv. unfold dict_get. by rewrite Hv.
  - intros s Hb. cbn. rewrite Hb. cbn. unfold dict_get. by rewrite Hb.
  - intros s Hb Hc. cbn. rewrite Hb, Hc. cbn. unfold dict_get. by rewrite Hc.
  - intros Hnone.
    destruct (List.find _ content_fields) as [field|] eqn:E; [|done].
    apply find_some in E as [Hin Hf]. apply list_elem_of_In in Hin.
    rewrite (Hnone field Hin) in Hf. by apply bool_decide_eq_true in Hf as [? ?].
Qed.

(** X25. [normalize] raises exactly for an event of type ["gmail"] whose
    [from] or [subject] is present in the payload and is not text; an
    event of any other type is never refused. *)
Theorem normalize_fails_iff (raw : RawEvent) :
  (∃ msg, normalize t raw = AttributeError msg) ↔
  eq_str (dict_get (source_metadata raw) "type") "gmail" = true ∧
  (lower_of t (dict_get_default (raw_payload raw) "from" (PStr "")) = None ∨
   lower_of t (dict_get_default (raw_payload raw) "subject" (PStr "")) = None).
Proof.
  unfold normalize.
  destruct (eq_str (dict_get (source_metadata raw) "type") "gmail").
  - destruct (lower_of t (dict_get_default (raw_payload raw) "from" _))
      as [from_email|].
    + destruct (lower_of t (dict_get_default (raw_payload raw) "subject" _))
        as [subject_lower|].
      * split; [|by intros [_ [?|?]]].
        intros [msg H]. unfold set_prompt_task in H.
        by repeat case_match.
      * split; [by intros; split; [|right]|]. intros _. by eexists.
    + split; [by intros; split; [|left]|]. intros _. by eexists.
  - split; [by intros [msg H]|]. by intros [? _].
Qed.

(** X26. A [normalize] that returns changes nothing of the raw event but
    the [prompt_task] entry of its [source_metadata], and the normalized
    dict carries the event's source id and, under [metadata], the event's
    metadata as the call leaves it. *)
Theorem normalize_touches_prompt_task_only (raw raw' : RawEvent)
    (normalized : gmap string pyval) :
  normalize t raw = Normalized normalized raw' →
  source_id raw' = source_id raw ∧
  timestamp raw' = timestamp raw ∧
  raw_payload raw' = raw_payload raw ∧
  event_id raw' = event_id raw ∧
  (∀ k, k ≠ "prompt_task" →
     source_metadata raw' !! k = source_metadata raw !! k) ∧
  normalized !! "metadata" = Some (PDict (source_metadata raw')) ∧
  normalized !! "source_id" = Some (PStr (source_id raw)) ∧
  normalized !! "raw_content"
    = Some (PStr (_extract_content t (raw_payload raw))).
Proof.
  unfold normalize, set_prompt_task.
  intros H. repeat case_match; try done; injection H as <- <-; cbn;
    repeat split; try done;
    try (intros k Hk; by rewrite lookup_insert_ne);
    by simplify_map_eq.
Qed.

(** X27. For a mail event with text in [from] and [subject]: a subject
    that contains "dodaj do kalendarza" in any letter case selects the
    calendar prompt, whoever the sender is; otherwise a school sender
    selects the school prompt; otherwise the event's metadata is left as
    it is.  The selection is written into the raw event's own
    metadata. *)
Theorem normalize_routes_mail (raw : RawEvent) (subject from : string) :
  eq_str (dict_get (source_metadata raw) "type") "gmail" = true →
  dict_get_default (raw_payload raw) "subject" (PStr "") = PStr subject →
  dict_get_default (raw_payload raw) "from" (PStr "") = PStr from →
  ∃ normalized raw',
    normalize t raw = Normalized normalized raw' ∧
    normalized !! "subject" = Some (PStr subject) ∧
    normalized !! "from_email" = Some (PStr (lower t from)) ∧
    (contains "dodaj do kalendarza" (lower t subject) = true →
     source_metadata raw' !! "prompt_task"
       = Some (PStr "extract_mail_to_calendar")) ∧
    (contains "dodaj do kalendarza" (lower t subject) = false →
     _is_school_sender (lower t from) = true →
     source_metadata raw' !! "prompt_task"
       = Some (PStr "extract_school_event")) ∧
    (contains "dodaj do kalendarza" (lower t subject) = false →
     _is_school_sender (lower t from) = false →
     raw' = raw).
Proof.
  intros Hty Hs Hf. unfold normalize. rewrite Hty, Hs, Hf. cbn zeta.
  cbn [lower_of].
  destruct (contains "dodaj do kalendarza" (lower t subject)) eqn:Hc.
  - eexists _, _. split; [reflexivity|]. cbn.
    repeat split; try done; by simplify_map_eq.
  - destruct (_is_school_sender (lower t from)) eqn:Hsch.
    + eexists _, _. split; [reflexivity|]. cbn.
      repeat split; try done; by simplify_map_eq.
    + eexists _, _. split; [reflexivity|].
      repeat split; try done; by simplify_map_eq.
Qed.

(** X28. Normalizing again the event a [normalize] has left gives the
    same normalized dict and leaves the event as it is: a requeued event
    is normalized on retry as it was the first time. *)
Theorem normalize_is_stable (raw raw' : RawEvent)
    (normalized : gmap string pyval) :
  normalize t raw = Normalized normalized raw' →
  normalize t raw' = Normalized normalized raw'.
Proof.
  unfold normalize.
  destruct (eq_str (dict_get (source_metadata raw) "type") "gmail") eqn:Hty.
  2:{ intros [= <- <-]. by rewrite Hty. }
  destruct (lower_of t (dict_get_default (raw_payload raw) "from" _))
    as [from_email|] eqn:Hf; [|done].
  destruct (lower_of t (dict_get_default (raw_payload raw) "subject" _))
    as [subject_lower|] eqn:Hs; [|done].
  assert (∀ task,
    set_prompt_task task
      (<["from_email" := PStr from_email]>
         (<["subject" := dict_get_default (raw_payload raw) "subject" (PStr "")]>
            (<["source_id" := PStr (source_id raw)]>
               (<["timestamp" := PStr (isoformat t (timestamp raw))]>
                  (<["raw_content" :=
                       PStr (_extract_content t (raw_payload raw))]>
                     (<["metadata" := PDict (source_metadata raw)]> ∅))))))
      raw = Normalized normalized raw' →
    (if contains "dodaj do kalendarza" subject_lower
     then task = "extract_mail_to_calendar"
     else _is_school_sender from_email = true ∧
          task = "extract_school_event") →
    normalize t raw' = Normalized normalized raw') as Hset.
  { intros task [= <- <-] Htask. unfold normalize.
    cbn [source_metadata raw_payload source_id timestamp event_id].
    assert (eq_str (dict_get (<["prompt_task" := PStr task]>
                                (source_metadata raw)) "type") "gmail"
            = true) as ->.
    { unfold dict_get in *. by rewrite lookup_insert_ne. }
    rewrite Hf, Hs. cbn zeta.
    assert (set_prompt_task task
      (<["from_email" := PStr from_email]>
         (<["subject" := dict_get_default (raw_payload raw) "subject" (PStr "")]>
            (<["source_id" := PStr (source_id raw)]>
               (<["timestamp" := PStr (isoformat t (timestamp raw))]>
                  (<["raw_content" :=
                       PStr (_extract_content t (raw_payload raw))]>
                     (<["metadata" :=
                          PDict (<["prompt_task" := PStr task]>
                                   (source_metadata raw))]> ∅))))))
      {| source_id := source_id raw;
         timestamp := timestamp raw;
         raw_payload := raw_payload raw;
         source_metadata :=
           <["prompt_task" := PStr task]> (source_metadata raw);
         event_id := event_id raw |}
      = Normalized
          (<["metadata" :=
               PDict (<["prompt_task" := PStr task]> (source_metadata raw))]>
             (<["from_email" := PStr from_email]>
                (<["subject" :=
                     dict_get_default (raw_payload raw) "subject" (PStr "")]>
                   (<["source_id" := PStr (source_id raw)]>
                      (<["timestamp" := PStr (isoformat t (timestamp raw))]>
                         (<["raw_content" :=
                              PStr (_extract_content t (raw_payload raw))]>
                            (<["metadata" := PDict (source_metadata raw)]>
                               ∅)))))))
          {| source_id := source_id raw;
             timestamp := timestamp raw;
             raw_payload := raw_payload raw;
             source_metadata :=
               <["prompt_task" := PStr task]> (source_metadata raw);
             event_id := event_id raw |}) as Hsame.
    { unfold set_prompt_task.
      cbn [source_metadata raw_payload source_id timestamp event_id].
      rewrite insert_insert_eq. by f_equal. }
    destruct (contains "dodaj do kalendarza" subject_lower).
    - subst task. exact Hsame.
    - destruct Htask as [-> ->]. exact Hsame. }
  cbn zeta.
  destruct (contains "dodaj do kalendarza" subject_lower) eqn:Hc.
  - intros H. by eapply Hset.
  - destruct (_is_school_sender from_email) eqn:Hsch.
    + intros H. by eapply Hset.
    + intros [= <- <-]. by rewrite Hty, Hf, Hs, Hc, Hsch.
Qed.

End WithText.
End NormalizerExtras.

(** ** The processing engine *)

Module EngineExtras.
Import Engine.

Section WithWorld.
Context {W : Type}.
Implicit Types (engine : Engine.t W) (raw : RawEvent) (w : W).

(** What a returning [normalize] puts under the two keys [extract]
    reads. *)
Lemma normalize_keys (t : Normalizer.PyText) raw raw'
    (normalized : gmap string pyval) :
  Normalizer.normalize t raw = Normalizer.Normalized normalized raw' →
  dict_get normalized "source_id" = PStr (source_id raw) ∧
  dict_get_default normalized "metadata" (PDict ∅)
    = PDict (source_metadata raw') ∧
  source_id raw' = source_id raw ∧
  event_id raw' = event_id raw.
Proof.
  unfold Normalizer.normalize, Normalizer.set_prompt_task,
    dict_get, dict_get_default.
  intros H. repeat case_match; try done; injection H as <- <-; cbn;
    by simplify_map_eq.
Qed.

(** The event a returning [process_event] gives is one [extract]
    returned for the normalized event. *)
Lemma process_event_Returned engine raw w (event : StructuredEvent.t)
    raw' w' :
  process_event engine raw w = (Returned event, raw', w') →
  ∃ normalized extraction_result w1,
    Normalizer.normalize (text engine) raw
      = Normalizer.Normalized normalized raw' ∧
    uuid4 engine w1 = (StructuredEvent.event_id event, w') ∧
    DataExtractor.extract (builtins engine) (StructuredEvent.event_id event)
      (now_isoformat engine w') normalized extraction_result = Ok event.
Proof.
  unfold process_event.
  destruct (Normalizer.normalize (text engine) raw)
    as [normalized raw1|msg] eqn:Hn; [|done].
  destruct (extract_event_details engine normalized PNone _ w)
    as [[extraction_result|e] w1]; [|done].
  destruct (uuid4 engine w1) as [uuid w2] eqn:Hu.
  destruct (DataExtractor.extract _ _ _ _ _) as [structured|e] eqn:He;
    [|done].
  intros [= <- <- <-].
  pose proof (ExtractorExtras.extracted_event_fields_helper
                _ _ _ _ _ _ He) as Hid.
  exists normalized, extraction_result, w1.
  rewrite <- Hid. split; [by rewrite ?Hn|]. split; [exact Hu|exact He].
Qed.

Lemma process_event_links_source_helper engine raw w
    (event : StructuredEvent.t) raw' w' :
  process_event engine raw w = (Returned event, raw', w') →
  DataExtractor.well_formed event.
Proof.
  intros (normalized & extraction_result & w1 & _ & _ & He)
    %process_event_Returned.
  destruct (ExtractorClaims.extract_Ok _ _ _ _ _ _ He) as (a & _ & _ & Hv).
  by apply ExtractorClaims.validate_well_formed in Hv.
Qed.

(** X29. An event that [process_event] returns satisfies the data-model
    invariant, carries the source id of the raw event as its reference
    and a freshly drawn uuid as its id, and holds every entry of the raw
    event's metadata, as normalization left it, in its own metadata; the
    raw event keeps its source id and its event id. *)
Theorem process_event_links_source engine raw w
    (event : StructuredEvent.t) raw' w' :
  process_event engine raw w = (Returned event, raw', w') →
  DataExtractor.well_formed event ∧
  StructuredEvent.source_reference event = PStr (source_id raw) ∧
  (∃ w1, uuid4 engine w1 = (StructuredEvent.event_id event, w')) ∧
  source_id raw' = source_id raw ∧
  event_id raw' = event_id raw ∧
  ∃ md,
    StructuredEvent.metadata event = PDict md ∧
    ∀ k v, source_metadata raw' !! k = Some v → md !! k = Some v.
Proof.
  intros (normalized & extraction_result & w1 & Hn & Hu & He)
    %process_event_Returned.
  destruct (normalize_keys _ _ _ _ Hn) as (Hsrc & Hmd & Hs & Hi).
  destruct (ExtractorClaims.extract_Ok _ _ _ _ _ _ He) as (a & _ & _ & Hv).
  apply ExtractorClaims.validate_well_formed in Hv.
  split; [done|].
  rewrite ExtractorExtras.extract_unfold in He.
  destruct (DataExtractor.parse_alert_before _ _) as [a'|]; [|done].
  unfold DataExtractor.build_metadata in He. rewrite Hmd in He.
  cbn zeta in He. destruct (DataExtractor._validate _); [|done].
  injection He as He. rewrite <- He. cbn.
  split; [done|]. split; [by exists w1|]. split; [done|]. split; [done|].
  eexists. split; [done|]. intros k v Hk. by apply lookup_union_Some_l.
Qed.

Lemma process_batch_cons engine raw (rest : list RawEvent) w :
  process_batch engine (raw :: rest) w =
  match process_event engine raw w with
  | (Returned structured, _, w1) =>
      ((structured :: (process_batch engine rest w1).1.1,
        (process_batch engine rest w1).1.2),
       (process_batch engine rest w1).2)
  | (Failed f, _, w1) =>
      (((process_batch engine rest w1).1.1,
        (event_id raw, f) :: (process_batch engine rest w1).1.2),
       (process_batch engine rest w1).2)
  end.
Proof.
  cbn [process_batch].
  destruct (process_event engine raw w) as [[[structured|f] raw'] w1];
    by destruct (process_batch engine rest w1) as [[results reports] w2].
Qed.

(** X30. [process_batch] accounts for every event once: an event is
    either in the results or reported with its id, both in input order;
    every result satisfies the data-model invariant; and processing two
    lists one after the other is processing their concatenation. *)
Theorem process_batch_accounts engine (raw_events : list RawEvent) w :
  length (process_batch engine raw_events w).1.1
    + length (process_batch engine raw_events w).1.2
    = length raw_events ∧
  Forall DataExtractor.well_formed (process_batch engine raw_events w).1.1 ∧
  (process_batch engine raw_events w).1.2.*1
    `sublist_of` event_id <$> raw_events ∧
  ∀ more,
    process_batch engine (raw_events ++ more) w =
    let '(results, reports, w1) := process_batch engine raw_events w in
    let '(results', reports', w2) := process_batch engine more w1 in
    (results ++ results', reports ++ reports', w2).
Proof.
  revert w. induction raw_events as [|raw rest IH]; intros w.
  { cbn. split; [done|]. split; [done|]. split; [done|].
    intros more. by destruct (process_batch engine more w) as [[? ?] ?]. }
  rewrite process_batch_cons.
  destruct (process_event engine raw w) as [[[structured|f] raw'] w1] eqn:Hp;
    destruct (IH w1) as (Hlen & Hwf & Hsub & Happ); cbn [fst snd length].
  - split; [lia|]. split.
    { constructor; [|done].
      by destruct (process_event_links_source_helper _ _ _ _ _ _ Hp). }
    split; [by apply sublist_cons|].
    intros more. cbn [app]. rewrite process_batch_cons, Hp, Happ.
    destruct (process_batch engine rest w1) as [[results reports] w2].
    cbn [fst snd].
    by destruct (process_batch engine more w2) as [[results' reports'] w3].
  - split; [cbn; lia|]. split; [done|].
    split; [cbn; by apply sublist_skip|].
    intros more. cbn [app]. rewrite process_batch_cons, Hp, Happ.
    destruct (process_batch engine rest w1) as [[results reports] w2].
    cbn [fst snd].
    by destruct (process_batch engine more w2) as [[results' reports'] w3].
Qed.

End WithWorld.
End EngineExtras.

(** ** The further properties at concrete pipelines *)

Module ExtraExamples.
Import Queue Orchestrator Ingestion Fixtures MoreFixtures.

Lemma consume_then_settle_witness :
  (∅ : gmap (option string) RawEvent) !! event_id src_1 = None ∧
  consume_next q_two = Some (src_1, q_two_pulled) ∧
  ack (Some "src_1") q_two_pulled
    = (true, {| queue := [src_2]; processing := ∅ |}) ∧
  nack (Some "src_1") true q_two_pulled
    = (true, {| queue := [src_2; src_1]; processing := ∅ |}).
Proof.
  assert ((∅ : gmap (option string) RawEvent) !! event_id src_1 = None)
    as Hfresh by reflexivity.
  assert (consume_next {| queue := src_1 :: [src_2]; processing := ∅ |}
          = Some (src_1, q_two_pulled)) as Hc by reflexivity.
  destruct (QueueExtras.consume_then_settle src_1 [src_2] ∅ q_two_pulled
              Hfresh Hc) as (Ha & Hn & _).
  split; [exact Hfresh|]. split; [exact Hc|]. split; [exact Ha|exact Hn].
Defined.

Lemma same_id_overwrites_in_flight_witness :
  event_id src_1 = event_id src_1_again ∧
  nack (Some "src_1") true
    {| queue := [];
       processing :=
         <[Some "src_1" := src_1_again]> (<[Some "src_1" := src_1]> ∅) |}
  = (true, {| queue := [src_1_again];
              processing := delete (Some "src_1") ∅ |}).
Proof.
  assert (event_id src_1 = event_id src_1_again) as Hid by reflexivity.
  split; [exact Hid|].
  exact (proj1 (proj2
    (QueueExtras.same_id_overwrites_in_flight src_1 src_1_again [] ∅
       {| queue := [src_1_again];
          processing := <[Some "src_1" := src_1]> ∅ |}
       {| queue := [];
          processing :=
            <[Some "src_1" := src_1_again]> (<[Some "src_1" := src_1]> ∅) |}
       Hid eq_refl eq_refl))).
Defined.

Lemma start_connects_in_order_witness :
  ∃ w',
    start (orchestrator [mail; stuck]) (state_of [src_1])
    = (Ok [IngestionLoop "mail"; IngestionLoop "stuck"; ProcessingLoop],
       mkState true (event_queue (state_of [src_1])) w'
         [CallConnect "mail"; CallConnect "stuck"]).
Proof.
  apply (OrchestratorExtras.start_connects_in_order
           (orchestrator [mail; stuck]) (state_of [src_1])).
  intros c Hc w. cbn in Hc.
  apply elem_of_cons in Hc as [->|Hc]; [reflexivity|].
  apply list_elem_of_singleton in Hc as ->. reflexivity.
Defined.

Lemma mark_failure_requeues_after_sinks_witness :
  process_event (orchestrator_ok [unmarkable]) src_1 0
    = (Ok meeting_event, 1) ∧
  connector_map (orchestrator_ok [unmarkable]) !! source_id src_1
    = Some unmarkable ∧
  ∃ w' sinks,
    process_one (orchestrator_ok [unmarkable]) src_1
      (state_with q_two_pulled)
    = (Ok (), mkState true
                (nack (Some "src_1") true q_two_pulled).2 w'
                ([] ++ [CallProcessEvent src_1] ++ sinks ++
                 [CallMarkAsProcessed "mail" src_1;
                  CallPrint "Error processing event: "
                    (RuntimeError "label update failed");
                  CallNack "src_1" true])) ∧
    queue (nack (Some "src_1") true q_two_pulled).2 = [src_2; src_1].
Proof.
  assert (process_event (orchestrator_ok [unmarkable]) src_1
            (world (state_with q_two_pulled)) = (Ok meeting_event, 1))
    as Hp by reflexivity.
  assert (connector_map (orchestrator_ok [unmarkable]) !! source_id src_1
          = Some unmarkable) as Hc by (vm_compute; reflexivity).
  split; [exact Hp|]. split; [exact Hc|].
  destruct (OrchestratorExtras.mark_failure_requeues_after_sinks
              (orchestrator_ok [unmarkable]) src_1 (state_with q_two_pulled)
              meeting_event 1 unmarkable
              (RuntimeError "label update failed") Hp Hc
              (fun w => eq_refl))
    as (w' & sinks & Hone & _ & _ & Hq).
  exists w', sinks. split; [exact Hone|].
  apply (Hq "src_1"); reflexivity.
Defined.

Lemma unknown_source_is_acked_unmarked_witness :
  process_event (orchestrator_ok [mail]) stray 0 = (Ok meeting_event, 1) ∧
  ∃ w' sinks,
    process_one (orchestrator_ok [mail]) stray (state_of [])
    = (Ok (), mkState true
                (ack (Some "hook_1") (event_queue (state_of []))).2 w'
                ([] ++ [CallProcessEvent stray] ++ sinks ++
                 [CallAck "hook_1"])) ∧
    count_calls is_mark_call
      ([CallProcessEvent stray] ++ sinks ++ [CallAck "hook_1"]) = 0.
Proof.
  assert (process_event (orchestrator_ok [mail]) stray
            (world (state_of [])) = (Ok meeting_event, 1))
    as Hp by reflexivity.
  split; [exact Hp|].
  destruct (OrchestratorExtras.unknown_source_is_acked_unmarked
              (orchestrator_ok [mail]) stray (state_of [])
              meeting_event 1 Hp)
    as (w' & sinks & Hone & _ & Hm).
  { intros c Hc. cbn in Hc. apply list_elem_of_singleton in Hc as ->.
    discriminate. }
  exists w', sinks. split; [exact Hone|exact Hm].
Defined.


Lemma clean_pass_drains_backlog_witness :
  ∃ s' calls,
    consume_loop (orchestrator_ok [mail]) 3 (state_of [src_1; src_2])
      = (Ok true, s') ∧
    queue (event_queue s') = [] ∧
    List.filter is_ack_call calls = [CallAck "src_1"; CallAck "src_2"] ∧
    processing (event_queue s') = ∅.
Proof.
  destruct (OrchestratorExtras.clean_pass_drains_backlog
              (orchestrator_ok [mail]) (state_of [src_1; src_2]))
    as (s' & calls & Hloop & Hq & _ & _ & Ha & _ & Hfl).
  { intros r w. by eexists _, _. }
  { intros c Hc r w. cbn in Hc. apply list_elem_of_singleton in Hc as ->.
    by eexists _, _. }
  exists s', calls. split; [exact Hloop|]. split; [exact Hq|].
  split; [exact Ha|]. apply Hfl; [reflexivity|].
  intros r Hr. cbn in Hr.
  apply elem_of_cons in Hr as [->|Hr]; [discriminate|].
  apply list_elem_of_singleton in Hr as ->. discriminate.
Defined.

Lemma ingestion_round_publishes_witness :
  fetch_events flaky 0
    = ([src_1], Some (RuntimeError "Error fetching Gmail events"), 1) ∧
  ingestion_round flaky (state_of [src_2])
  = (Ok (),
     mkState true {| queue := [src_2; src_1]; processing := ∅ |} 1
       [CallPrint "Error in ingestion loop for mail"
          (RuntimeError "Error fetching Gmail events");
        CallSleep 5]).
Proof.
  assert (fetch_events flaky (world (state_of [src_2]))
          = ([src_1], Some (RuntimeError "Error fetching Gmail events"), 1))
    as Hf by reflexivity.
  split; [exact Hf|].
  exact (OrchestratorExtras.ingestion_round_publishes
           flaky (state_of [src_2]) _ _ _ Hf).
Defined.

Lemma ingestion_republishes_every_round_witness :
  running (state_of []) = true ∧
  ∃ w',
    _ingestion_loop steady 2 (state_of [])
    = (Ok (),
       mkState true
         {| queue := [] ++ concat (replicate 2 [src_1; src_2]);
            processing := ∅ |} w' []).
Proof.
  split; [reflexivity|].
  apply (OrchestratorExtras.ingestion_republishes_every_round
           steady [src_1; src_2] 2 (state_of [])).
  - intros w. by eexists.
  - reflexivity.
Defined.

Lemma infinite_alert_raises_overflow_witness :
  llm_alert (PFloat (S754_infinity false)) !! "alert_before_minutes"
    = Some (PFloat (S754_infinity false)) ∧
  DataExtractor.extract py "uuid-1" "2024-05-01T09:00:00"
    (normalized src_1) (llm_alert (PFloat (S754_infinity false)))
  = Raise (OverflowError "cannot convert float infinity to integer").
Proof.
  assert (llm_alert (PFloat (S754_infinity false)) !! "alert_before_minutes"
          = Some (PFloat (S754_infinity false))) as H
    by (vm_compute; reflexivity).
  split; [exact H|].
  exact (ExtractorExtras.infinite_alert_raises_overflow
           py "uuid-1" "2024-05-01T09:00:00" (normalized src_1) _ false H).
Defined.

Lemma time_window_is_enforced_witness :
  DataExtractor._parse_datetime py (dict_get llm_backwards "start_time")
    = Some (mkDatetime 1714561200000000 false) ∧
  DataExtractor._parse_datetime py (dict_get llm_backwards "end_time")
    = Some (mkDatetime 1714557600000000 false) ∧
  DataExtractor.extract py "uuid-1" "2024-05-01T09:00:00"
    (normalized src_1) llm_backwards
  = Raise (ValueError "Start time must be before end time").
Proof.
  assert (DataExtractor._parse_datetime py
            (dict_get llm_backwards "start_time")
          = Some (mkDatetime 1714561200000000 false)) as Hst
    by (vm_compute; reflexivity).
  assert (DataExtractor._parse_datetime py
            (dict_get llm_backwards "end_time")
          = Some (mkDatetime 1714557600000000 false)) as Hen
    by (vm_compute; reflexivity).
  split; [exact Hst|]. split; [exact Hen|].
  destruct (ExtractorExtras.time_window_is_enforced
              py "uuid-1" "2024-05-01T09:00:00" (normalized src_1)
              llm_backwards _ _ Hst Hen) as [_ Hraise].
  apply Hraise.
  - eexists. vm_compute. reflexivity.
  - eexists. vm_compute. reflexivity.
  - vm_compute. reflexivity.
  - reflexivity.
  - cbn. lia.
Defined.

Lemma extracted_event_fields_witness :
  ∃ event,
    DataExtractor.extract py "uuid-1" "2024-05-01T09:00:00"
      (normalized src_1) llm_meeting = Ok event ∧
    StructuredEvent.event_id event = "uuid-1" ∧
    StructuredEvent.source_reference event = PStr "mail".
Proof.
  eexists. split; [vm_compute; reflexivity|].
  match goal with |- StructuredEvent.event_id ?ev = _ ∧ _ =>
    destruct (ExtractorExtras.extracted_event_fields
                py "uuid-1" "2024-05-01T09:00:00"
                (normalized src_1) llm_meeting ev)
      as (Hid & Href & _)
  end.
  - vm_compute. reflexivity.
  - split; [exact Hid|]. rewrite Href. vm_compute. reflexivity.
Defined.

Lemma normalize_touches_prompt_task_only_witness :
  ∃ normalized raw',
    Normalizer.normalize text invite
      = Normalizer.Normalized normalized raw' ∧
    raw_payload raw' = raw_payload invite ∧
    normalized !! "metadata" = Some (PDict (source_metadata raw')).
Proof.
  eexists _, _. split; [vm_compute; reflexivity|].
  match goal with |- raw_payload ?r = _ ∧ ?n !! _ = _ =>
    destruct (NormalizerExtras.normalize_touches_prompt_task_only
                text invite r n)
      as (_ & _ & Hp & _ & _ & Hm & _)
  end.
  - vm_compute. reflexivity.
  - split; [exact Hp|exact Hm].
Defined.

Lemma normalize_routes_mail_witness :
  Normalizer.eq_str (dict_get (source_metadata invite) "type") "gmail"
    = true ∧
  Normalizer.contains "dodaj do kalendarza"
    (Normalizer.lower text "Dodaj do kalendarza: zebranie") = true ∧
  ∃ normalized raw',
    Normalizer.normalize text invite
      = Normalizer.Normalized normalized raw' ∧
    source_metadata raw' !! "prompt_task"
      = Some (PStr "extract_mail_to_calendar").
Proof.
  assert (Normalizer.eq_str (dict_get (source_metadata invite) "type") "gmail"
          = true) as Hty by (vm_compute; reflexivity).
  assert (Normalizer.contains "dodaj do kalendarza"
            (Normalizer.lower text "Dodaj do kalendarza: zebranie") = true)
    as Hc by (vm_compute; reflexivity).
  split; [exact Hty|]. split; [exact Hc|].
  destruct (NormalizerExtras.normalize_routes_mail text invite
              "Dodaj do kalendarza: zebranie"
              "Sekretariat <biuro@sp5.edu.pl>" Hty)
    as (normalized & raw' & Hn & _ & _ & Hcal & _).
  - vm_compute. reflexivity.
  - vm_compute. reflexivity.
  - exists normalized, raw'. split; [exact Hn|]. exact (Hcal Hc).
Defined.

Lemma normalize_is_stable_witness :
  ∃ normalized raw',
    Normalizer.normalize text invite
      = Normalizer.Normalized normalized raw' ∧
    Normalizer.normalize text raw'
      = Normalizer.Normalized normalized raw'.
Proof.
  eexists _, _. split; [vm_compute; reflexivity|].
  apply (NormalizerExtras.normalize_is_stable text invite).
  vm_compute. reflexivity.
Defined.

Lemma process_event_links_source_witness :
  ∃ event raw' w',
    Engine.process_event engine invite 0 = (Engine.Returned event, raw', w') ∧
    DataExtractor.well_formed event ∧
    StructuredEvent.source_reference event = PStr "mail".
Proof.
  eexists _, _, _. split; [vm_compute; reflexivity|].
  match goal with |- DataExtractor.well_formed ?ev ∧ _ =>
    edestruct (EngineExtras.process_event_links_source engine invite 0 ev)
      as (Hwf & Href & _)
  end.
  - vm_compute. reflexivity.
  - split; [exact Hwf|]. rewrite Href. reflexivity.
Defined.

End ExtraExamples.
